(** * Capital city scraper (src/index.ts): extraction over a document tree

    A shallow embedding of [CapitalCityScraper]: the strings, numbers and
    regular expressions the page callbacks use, the document tree they
    query, the three extractors (country list, capital link, labelled
    value) and the sequential traversal that threads the browser page. *)

From Stdlib Require Import List ZArith NArith Bool Lia String Ascii Sorted.
From Stdlib Require Import DecimalString DecimalN.
From Stdlib Require Import Floats.SpecFloat.
Import ListNotations.

Set Implicit Arguments.
Set Warnings "-register-all".

(* ================================================================== *)
(** ** Prefixes of lists *)

Section Prefixes.
Context {A : Type} (p : A -> bool).

Fixpoint dropWhile (l : list A) : list A :=
  match l with
  | [] => []
  | x :: t => if p x then dropWhile t else l
  end.

Fixpoint takeWhile (l : list A) : list A :=
  match l with
  | [] => []
  | x :: t => if p x then x :: takeWhile t else []
  end.
End Prefixes.

(* ================================================================== *)
(** ** JavaScript strings: sequences of UTF-16 code units *)

Module JSString.

Definition jsstring := list N.

(** An ASCII literal as a sequence of code units. *)
Definition lit (s : string) : jsstring :=
  map N_of_ascii (list_ascii_of_string s).

Definition eqb (a b : jsstring) : bool :=
  if list_eq_dec N.eq_dec a b then true else false.

(** WhiteSpace and LineTerminator code units: what [trim], [\s] and the
    prefix skipping of [parseFloat] all use. *)
Definition isWhiteSpace (c : N) : bool :=
  ((9 <=? c) && (c <=? 13) || (c =? 32) || (c =? 160) || (c =? 5760)
   || (8192 <=? c) && (c <=? 8202) || (c =? 8232) || (c =? 8233)
   || (c =? 8239) || (c =? 8287) || (c =? 12288) || (c =? 65279))%N.

Definition isLineTerminator (c : N) : bool :=
  ((c =? 10) || (c =? 13) || (c =? 8232) || (c =? 8233))%N.

Definition isDigit (c : N) : bool := ((48 <=? c) && (c <=? 57))%N.

Definition trimStart (s : jsstring) : jsstring := dropWhile isWhiteSpace s.
Definition trimEnd (s : jsstring) : jsstring :=
  rev (dropWhile isWhiteSpace (rev s)).

(** [String.prototype.trim] *)
Definition trim (s : jsstring) : jsstring := trimEnd (trimStart s).

Fixpoint startsWith (s pat : jsstring) {struct pat} : bool :=
  match pat, s with
  | [], _ => true
  | _ :: _, [] => false
  | p :: pat', c :: s' => (c =? p)%N && startsWith s' pat'
  end.

(** [String.prototype.includes]: [pat] occurs at some position of [s]. *)
Fixpoint includes (s pat : jsstring) : bool :=
  startsWith s pat ||
  match s with
  | [] => false
  | _ :: t => includes t pat
  end.

(** [s.replace(/,/g, '')] *)
Definition removeCommas (s : jsstring) : jsstring :=
  filter (fun c => negb (c =? 44)%N) s.

(** Truthiness of a string: non-empty. *)
Definition truthy (s : jsstring) : bool :=
  match s with [] => false | _ => true end.

End JSString.
Import JSString.

(* ================================================================== *)
(** ** JavaScript numbers: binary64, [parseFloat] and [Number::toString] *)

Module JSNumber.

Definition number := spec_float.

Definition prec : Z := 53.
Definition emax : Z := 1024.

(** The Number value of the mathematical value [m * 10^x] ([0 <= m]):
    round to nearest, ties to even, overflow to infinity.  Every digit
    counts, as in V8; the standard lets an engine drop those after the
    twentieth. *)
Definition ofDecimal (neg : bool) (m x : Z) : number :=
  if (0 <=? x)%Z then
    match (m * 10 ^ x)%Z with
    | Zpos p => binary_round prec emax neg p 0
    | _ => S754_zero neg
    end
  else
    match m with
    | Zpos _ =>
        let '(q, e, l) :=
          SFdiv_core_binary prec emax m 0 (10 ^ (- x))%Z 0 in
        binary_round_aux prec emax neg q e l
    | _ => S754_zero neg
    end.

Definition digitVal (c : N) : Z := Z.of_N (c - 48).

Definition digitsValue (ds : jsstring) : Z :=
  fold_left (fun acc c => (10 * acc + digitVal c)%Z) ds 0%Z.

(** ExponentPart, when a complete one starts the rest; otherwise the
    longest literal prefix ends before it and the exponent is 0. *)
Definition exponentPart (r : jsstring) : Z :=
  match r with
  | c :: r1 =>
      if ((c =? 101) || (c =? 69))%N then
        let '(neg, r2) :=
          match r1 with
          | s :: r2 =>
              if (s =? 43)%N then (false, r2)
              else if (s =? 45)%N then (true, r2)
              else (false, r1)
          | [] => (false, r1)
          end in
        match takeWhile isDigit r2 with
        | [] => 0%Z
        | ds => if neg then (- digitsValue ds)%Z else digitsValue ds
        end
      else 0%Z
  | [] => 0%Z
  end.

(** [parseFloat]: skip leading white space, take the longest prefix that
    is a StrDecimalLiteral, NaN when there is none. *)
Definition parseFloat (input : jsstring) : number :=
  let t := trimStart input in
  let '(neg, u) :=
    match t with
    | c :: r =>
        if (c =? 43)%N then (false, r)
        else if (c =? 45)%N then (true, r)
        else (false, t)
    | [] => (false, t)
    end in
  if startsWith u (lit "Infinity") then S754_infinity neg
  else
    let ip := takeWhile isDigit u in
    let r1 := dropWhile isDigit u in
    let '(fp, r2) :=
      match r1 with
      | c :: r =>
          if (c =? 46)%N
          then (takeWhile isDigit r, dropWhile isDigit r)
          else ([], r1)
      | [] => ([], r1)
      end in
    match ip ++ fp with
    | [] => S754_nan
    | ds =>
        ofDecimal neg (digitsValue ds)
                  (exponentPart r2 - Z.of_nat (List.length fp))
    end.

(** Decimal digits of a non-negative integer. *)
Definition natDigits (n : Z) : jsstring :=
  lit (NilZero.string_of_uint (N.to_uint (Z.to_N n))).

Section PositiveToString.
(** The finite positive value [m * 2^e], as the fraction [num / den]. *)
Variables (m : positive) (e : Z).

Definition num : Z := (Zpos m * 2 ^ Z.max e 0)%Z.
Definition den : Z := (2 ^ Z.max (- e) 0)%Z.

(** Smallest [t >= 1] with [den <= num * 10^t], for a value below 1. *)
Fixpoint firstScale (fuel : nat) (t : Z) : Z :=
  match fuel with
  | O => t
  | S fuel' =>
      if (den <=? num * 10 ^ t)%Z then t else firstScale fuel' (t + 1)%Z
  end.

(** The [n] of Number::toString: [10^(n-1) <= value < 10^n]. *)
Definition decimalPoint : Z :=
  if (den <=? num)%Z
  then Z.of_nat (List.length (natDigits (num / den)))
  else (1 - firstScale (S (Z.to_nat (Z.log2 den))) 1)%Z.

(** [value / 10^scale] as a fraction. *)
Definition scaled (scale : Z) : Z * Z :=
  if (0 <=? scale)%Z then (num, den * 10 ^ scale)%Z
  else (num * 10 ^ (- scale), den)%Z.

Definition roundTrips (s scale : Z) : bool :=
  match ofDecimal false s scale with
  | S754_finite _ m' e' => Pos.eqb m m' && Z.eqb e e'
  | _ => false
  end.

(** The fewest digits [k] (from [k] upwards) such that some [s] of [k]
    digits has [s * 10^(n-k)] round to the value; among two such [s]
    the closer one, the even one on a tie.  Returns [(s, k, n)]. *)
Fixpoint shortest (fuel : nat) (n k : Z) : Z * Z * Z :=
  let '(a, b) := scaled (n - k) in
  let lo := (a / b)%Z in
  let hi := (lo + 1)%Z in
  let okLo := roundTrips lo (n - k) in
  let okHi := roundTrips hi (n - k) in
  let dLo := (a - lo * b)%Z in
  let dHi := (hi * b - a)%Z in
  let pick :=
    if okLo && okHi then
      if (dLo <? dHi)%Z then lo
      else if (dHi <? dLo)%Z then hi
      else if Z.even lo then lo else hi
    else if okLo then lo else hi in
  if okLo || okHi then
    if (pick =? 10 ^ k)%Z then (10 ^ (k - 1), k, n + 1)%Z
    else (pick, k, n)
  else
    match fuel with
    | O => (lo, k, n)
    | S fuel' => shortest fuel' n (k + 1)%Z
    end.

Definition zeros (n : Z) : jsstring := repeat 48%N (Z.to_nat n).

Definition positiveToString : jsstring :=
  let '(s, k, n) := shortest 16 decimalPoint 1 in
  let ds := natDigits s in
  if ((k <=? n) && (n <=? 21))%Z then ds ++ zeros (n - k)
  else if ((0 <? n) && (n <=? 21))%Z then
    firstn (Z.to_nat n) ds ++ lit "." ++ skipn (Z.to_nat n) ds
  else if ((-6 <? n) && (n <=? 0))%Z then
    lit "0." ++ zeros (- n) ++ ds
  else
    let x := (n - 1)%Z in
    let sign := if (x <? 0)%Z then lit "-" else lit "+" in
    if (k =? 1)%Z then ds ++ lit "e" ++ sign ++ natDigits (Z.abs x)
    else firstn 1 ds ++ lit "." ++ skipn 1 ds
         ++ lit "e" ++ sign ++ natDigits (Z.abs x).
End PositiveToString.

(** [Number::toString] in radix 10. *)
Definition toString (x : number) : jsstring :=
  match x with
  | S754_nan => lit "NaN"
  | S754_zero _ => lit "0"
  | S754_infinity neg =>
      (if neg then lit "-" else []) ++ lit "Infinity"
  | S754_finite neg m e =>
      (if neg then lit "-" else []) ++ positiveToString m e
  end.

End JSNumber.
Import JSNumber.

(* ================================================================== *)
(** ** Regular expressions

    Both patterns of the source are literals without flags, anchored at
    both ends ([^...$]), so [regex.test(text)] holds exactly when the whole
    of [text] is in the language of the body; [test] keeps no state between
    calls. *)

Module RegExp.

Inductive regex : Type :=
| Never
| Eps
| Class (p : N -> bool)
| Seq (a b : regex)
| Alt (a b : regex)
| Star (a : regex).

Definition Plus (a : regex) : regex := Seq a (Star a).
Definition Opt (a : regex) : regex := Alt a Eps.

Fixpoint chars (s : jsstring) : regex :=
  match s with
  | [] => Eps
  | c :: t => Seq (Class (N.eqb c)) (chars t)
  end.

Fixpoint nullable (r : regex) : bool :=
  match r with
  | Never => false
  | Eps => true
  | Class _ => false
  | Seq a b => nullable a && nullable b
  | Alt a b => nullable a || nullable b
  | Star _ => true
  end.

Definition seq' (a b : regex) : regex :=
  match a with Never => Never | _ => Seq a b end.

Definition alt' (a b : regex) : regex :=
  match a, b with
  | Never, _ => b
  | _, Never => a
  | _, _ => Alt a b
  end.

(** Brzozowski derivative: the words [w] with [c :: w] in the language. *)
Fixpoint deriv (c : N) (r : regex) : regex :=
  match r with
  | Never => Never
  | Eps => Never
  | Class p => if p c then Eps else Never
  | Seq a b =>
      alt' (seq' (deriv c a) b) (if nullable a then deriv c b else Never)
  | Alt a b => alt' (deriv c a) (deriv c b)
  | Star a => seq' (deriv c a) (Star a)
  end.

(** [/^r$/.test(s)] *)
Definition test (r : regex) (s : jsstring) : bool :=
  nullable (fold_left (fun r c => deriv c r) s r).

(** The words of a regular expression. *)
Inductive denotes : regex -> jsstring -> Prop :=
| denotes_eps : denotes Eps []
| denotes_class p c : p c = true -> denotes (Class p) [c]
| denotes_seq a b s1 s2 :
    denotes a s1 -> denotes b s2 -> denotes (Seq a b) (s1 ++ s2)
| denotes_alt_l a b s : denotes a s -> denotes (Alt a b) s
| denotes_alt_r a b s : denotes b s -> denotes (Alt a b) s
| denotes_star_nil a : denotes (Star a) []
| denotes_star_more a s1 s2 :
    denotes a s1 -> denotes (Star a) s2 -> denotes (Star a) (s1 ++ s2).

(** [[0-9,.]] *)
Definition numberChar (c : N) : bool :=
  isDigit c || (c =? 44)%N || (c =? 46)%N.

(** [.] without the [s] flag: anything but a line terminator. *)
Definition dot (c : N) : bool := negb (isLineTerminator c).

(** [/^[0-9,.]+\s+km2.*$/] *)
Definition areaRegex : regex :=
  Seq (Plus (Class numberChar))
      (Seq (Plus (Class isWhiteSpace))
           (Seq (chars (lit "km2")) (Star (Class dot)))).

(** [/^[0-9,.]+(\s+\(.*\))?$/] *)
Definition populationRegex : regex :=
  Seq (Plus (Class numberChar))
      (Opt (Seq (Plus (Class isWhiteSpace))
                (Seq (chars (lit "("))
                     (Seq (Star (Class dot)) (chars (lit ")")))))).

End RegExp.
Import RegExp.

(* ================================================================== *)
(** ** The document tree and the DOM queries the callbacks use *)

Module DOM.

(** What the callbacks read off an element: its lower-case tag name, its
    class list, and the properties the browser computes for it
    ([innerText] depends on layout, [href] and [src] are resolved
    URLs). *)
Record ElementData : Type := {
  tagName : string;
  classList : list string;
  innerText : jsstring;
  href : jsstring;
  src : jsstring
}.

Inductive Node : Type :=
| Text (data : jsstring)
| Element (d : ElementData) (childNodes : list Node).

(** Induction on nodes, with the property known of all the children. *)
Section NodeInduction.
Variable P : Node -> Prop.
Hypothesis HText : forall s, P (Text s).
Hypothesis HElement : forall d cs, Forall P cs -> P (Element d cs).

Fixpoint Node_nested_ind (n : Node) : P n :=
  match n with
  | Text s => HText s
  | Element d cs =>
      HElement d
        ((fix all (l : list Node) : Forall P l :=
            match l with
            | [] => Forall_nil P
            | c :: t => Forall_cons c (Node_nested_ind c) (all t)
            end) cs)
  end.
End NodeInduction.

(** A document is its root node. *)
Definition Document := Node.

Fixpoint nodeText (n : Node) : jsstring :=
  match n with
  | Text s => s
  | Element _ cs => flat_map nodeText cs
  end.

(** Where an element sits among its siblings: the preceding siblings
    nearest first, the following ones in order. *)
Record Position : Type := {
  here : ElementData;
  before : list Node;
  after : list Node
}.

(** An element of a document: its child nodes, its own position and the
    positions of its ancestors, parent first. *)
Record ElementRef : Type := {
  children : list Node;
  self : Position;
  ancestors : list Position
}.

Definition asNode (e : ElementRef) : Node :=
  Element (here (self e)) (children e).

(** [element.textContent] *)
Definition textContent (e : ElementRef) : jsstring := nodeText (asNode e).

Definition hasClass (d : ElementData) (c : string) : bool :=
  existsb (String.eqb c) (classList d).

(** [element.classList.contains(c)] *)
Definition classContains (e : ElementRef) (c : string) : bool :=
  hasClass (here (self e)) c.

(** The elements of the subtree at [n], in document order. *)
Fixpoint elementsAt (up : list Position) (l : list Node) (n : Node)
         (r : list Node) : list ElementRef :=
  match n with
  | Text _ => []
  | Element d cs =>
      let me := {| here := d; before := l; after := r |} in
      {| children := cs; self := me; ancestors := up |}
      :: (fix walk (l' cs' : list Node) : list ElementRef :=
            match cs' with
            | [] => []
            | c :: rest =>
                elementsAt (me :: up) l' c rest ++ walk (c :: l') rest
            end) [] cs
  end.

Fixpoint elementsIn (up : list Position) (l cs : list Node)
  : list ElementRef :=
  match cs with
  | [] => []
  | c :: rest => elementsAt up l c rest ++ elementsIn up (c :: l) rest
  end.

Definition allElements (doc : Document) : list ElementRef :=
  elementsAt [] [] doc [].

(** The proper descendants of [e], in document order. *)
Definition descendants (e : ElementRef) : list ElementRef :=
  elementsIn (self e :: ancestors e) [] (children e).

(** [element.parentElement] *)
Definition parentElement (e : ElementRef) : option ElementRef :=
  match ancestors e with
  | [] => None
  | p :: up =>
      Some {| children := rev (before (self e)) ++ asNode e :: after (self e);
              self := p;
              ancestors := up |}
  end.

Fixpoint firstElement (up : list Position) (l r : list Node)
  : option ElementRef :=
  match r with
  | [] => None
  | Text t :: r' => firstElement up (Text t :: l) r'
  | Element d cs :: r' =>
      Some {| children := cs;
              self := {| here := d; before := l; after := r' |};
              ancestors := up |}
  end.

(** [element.nextElementSibling] *)
Definition nextElementSibling (e : ElementRef) : option ElementRef :=
  firstElement (ancestors e) (asNode e :: before (self e)) (after (self e)).

(** *** Selectors *)

(** A compound selector: [tag.class1.class2:nth-child(n)]. *)
Record compound : Type := {
  c_tag : option string;
  c_classes : list string;
  c_nth : option nat
}.

Definition isElement (n : Node) : bool :=
  match n with Element _ _ => true | Text _ => false end.

(** 1-based index among the element children of the parent. *)
Definition childIndex (p : Position) : nat :=
  S (List.length (filter isElement (before p))).

Definition matchesCompound (c : compound) (p : Position) : bool :=
  match c_tag c with
  | Some t => String.eqb t (tagName (here p))
  | None => true
  end
  && forallb (hasClass (here p)) (c_classes c)
  && match c_nth c with
     | Some n => Nat.eqb (childIndex p) n
     | None => true
     end.

(** A complex selector, written as in the source from left to right:
    [Within s c] is [s c] (descendant), [ChildOf s c] is [s > c]. *)
Inductive selector : Type :=
| Simple (c : compound)
| Within (s : selector) (c : compound)
| ChildOf (s : selector) (c : compound).

Fixpoint matches (s : selector) (p : Position) (up : list Position)
  : bool :=
  match s with
  | Simple c => matchesCompound c p
  | ChildOf s' c =>
      matchesCompound c p
      && match up with
         | q :: up' => matches s' q up'
         | [] => false
         end
  | Within s' c =>
      matchesCompound c p
      && (fix someAncestor (up : list Position) : bool :=
            match up with
            | [] => false
            | q :: up' => matches s' q up' || someAncestor up'
            end) up
  end.

Definition selects (s : selector) (e : ElementRef) : bool :=
  matches s (self e) (ancestors e).

(** [document.querySelectorAll(s)] *)
Definition querySelectorAll (doc : Document) (s : selector)
  : list ElementRef :=
  filter (selects s) (allElements doc).

(** [document.querySelector(s)] *)
Definition querySelector (doc : Document) (s : selector)
  : option ElementRef :=
  hd_error (querySelectorAll doc s).

(** [element.querySelectorAll(s)]: the selector is matched against the
    whole document, the results are the descendants of the element. *)
Definition querySelectorAllIn (e : ElementRef) (s : selector)
  : list ElementRef :=
  filter (selects s) (descendants e).

(** [element.querySelector(s)] *)
Definition querySelectorIn (e : ElementRef) (s : selector)
  : option ElementRef :=
  hd_error (querySelectorAllIn e s).

Definition tag (t : string) : compound :=
  {| c_tag := Some t; c_classes := []; c_nth := None |}.
Definition classes (cs : list string) : compound :=
  {| c_tag := None; c_classes := cs; c_nth := None |}.
Definition tagClasses (t : string) (cs : list string) : compound :=
  {| c_tag := Some t; c_classes := cs; c_nth := None |}.
Definition tagNth (t : string) (n : nat) : compound :=
  {| c_tag := Some t; c_classes := []; c_nth := Some n |}.

End DOM.
Import DOM.

(* ================================================================== *)
(** ** Completions: a value returned or an error thrown *)

Inductive error : Type :=
| TypeError
| NavigationError
| Error (message : string).

Inductive completion (A : Type) : Type :=
| Normal (a : A)
| Throw (e : error).
Arguments Throw {A} e.

(* ================================================================== *)
(** ** The records of the source *)

Record Country : Type := {
  countryName : jsstring;
  countryUrl : jsstring
}.

Record City : Type := {
  cityName : jsstring;
  cityUrl : jsstring
}.

Record CityDetails : Type := {
  name : jsstring;
  url : jsstring;
  country : option jsstring;
  area : option jsstring;
  population : option jsstring;
  flagIconPath : option jsstring
}.

(* ================================================================== *)
(** ** The callbacks evaluated in the page *)

Module Callbacks.

(** *** The list of countries *)

(** ['table.wikitable tbody tr td:nth-child(2) > a'] *)
Definition countryLinks : selector :=
  ChildOf
    (Within (Within (Within (Simple (tagClasses "table" ["wikitable"%string]))
                            (tag "tbody"))
                    (tag "tr"))
            (tagNth "td" 2))
    (tag "a").

Definition countriesList (document : Document) : list Country :=
  map (fun url => {| countryName := innerText (here (self url));
                     countryUrl := href (here (self url)) |})
      (querySelectorAll document countryLinks).

(** *** The capital city of a country page *)

(** ['.infobox.ib-country.vcard tr'] *)
Definition countryInfoboxRows : selector :=
  Within (Simple (classes ["infobox"; "ib-country"; "vcard"]%string))
         (tag "tr").

(** ['.infobox-data a'] *)
Definition infoboxDataLink : selector :=
  Within (Simple (classes ["infobox-data"%string])) (tag "a").

Definition notNull (link : option ElementRef) : bool :=
  match link with Some _ => true | None => false end.

(** The rows kept by the filter of the source. *)
Definition capitalRows (document : Document) : list ElementRef :=
  filter (fun tr => includes (textContent tr) (lit "Capital"))
         (querySelectorAll document countryInfoboxRows).

Definition capitalCityLink (document : Document) : option ElementRef :=
  match
    find notNull
         (map (fun tr => querySelectorIn tr infoboxDataLink)
              (capitalRows document))
  with
  | Some link => link
  | None => None
  end.

Definition capitalCity (document : Document) : option City :=
  match capitalCityLink document with
  | Some link => Some {| cityName := innerText (here (self link));
                         cityUrl := href (here (self link)) |}
  | None => None
  end.

(** *** The details of a capital page *)

(** ['.infobox.ib-settlement.vcard .infobox-full-data.maptable a
     img.mw-file-element'] *)
Definition flagIconSelector : selector :=
  Within
    (Within
       (Within (Simple (classes ["infobox"; "ib-settlement"; "vcard"]%string))
               (classes ["infobox-full-data"; "maptable"]%string))
       (tag "a"))
    (tagClasses "img" ["mw-file-element"%string]).

Definition flagIconPathOf (document : Document) : option jsstring :=
  option_map (fun flagIcon => src (here (self flagIcon)))
             (querySelector document flagIconSelector).

(** ['.mergedtoprow th'] *)
Definition sectionHeaders : selector :=
  Within (Simple (classes ["mergedtoprow"%string])) (tag "th").

(** The header cells whose text contains the label. *)
Definition labelHeaders (document : Document) (label : jsstring)
  : list ElementRef :=
  filter (fun th => includes (textContent th) label)
         (querySelectorAll document sectionHeaders).

(** The [while] loop of the reducer: from [currentRow] on, the rows up to
    the next one of class [mergedtoprow]. *)
Fixpoint nextRows (fuel : nat) (currentRow : option ElementRef)
  : list ElementRef :=
  match fuel, currentRow with
  | S fuel', Some r =>
      if classContains r "mergedtoprow" then []
      else r :: nextRows fuel' (nextElementSibling r)
  | _, _ => []
  end.

(** [[row].concat(nextRows)] for one header row; the loop runs at most
    once per following sibling. *)
Definition block (row : ElementRef) : list ElementRef :=
  row :: nextRows (S (List.length (after (self row))))
                  (nextElementSibling row).

(** The reducer; reading [nextElementSibling] of a null parent throws. *)
Fixpoint collectRows (acc : list ElementRef)
         (parents : list (option ElementRef))
  : completion (list ElementRef) :=
  match parents with
  | [] => Normal acc
  | None :: _ => Throw TypeError
  | Some row :: rest => collectRows (acc ++ block row) rest
  end.

Definition labelRows (document : Document) (label : jsstring)
  : completion (list ElementRef) :=
  collectRows [] (map parentElement (labelHeaders document label)).

(** The data cells of the rows, flattened. *)
Definition dataCells (rows : list ElementRef) : list ElementRef :=
  List.concat (map (fun row => querySelectorAllIn row (Simple (tag "td"))) rows).

Definition cellText (td : ElementRef) : jsstring := trim (textContent td).

(** From the matching cells to the returned string. *)
Definition valueOfCells (values : list ElementRef) : option jsstring :=
  let valueText :=
    match values with
    | v :: _ => cellText v
    | [] => []
    end in
  let value :=
    if truthy valueText
    then Some (parseFloat (removeCommas valueText))
    else None in
  option_map toString value.

Definition getValueByLabel (document : Document) (label : jsstring)
           (regex : jsstring -> bool) : completion (option jsstring) :=
  match labelRows document label with
  | Throw e => Throw e
  | Normal rows =>
      let values := filter (fun td => regex (cellText td)) (dataCells rows) in
      Normal (valueOfCells values)
  end.

Definition getArea (document : Document) : completion (option jsstring) :=
  getValueByLabel document (lit "Area") (test areaRegex).

Definition getPopulation (document : Document)
  : completion (option jsstring) :=
  getValueByLabel document (lit "Population") (test populationRegex).

Record Details : Type := {
  d_flagIconPath : option jsstring;
  d_area : option jsstring;
  d_population : option jsstring
}.

Definition capitalCityDetails (document : Document) : completion Details :=
  let flag := flagIconPathOf document in
  match getArea document with
  | Throw e => Throw e
  | Normal a =>
      match getPopulation document with
      | Throw e => Throw e
      | Normal p =>
          Normal {| d_flagIconPath := flag; d_area := a; d_population := p |}
      end
  end.

End Callbacks.
Import Callbacks.

(* ================================================================== *)
(** ** The scraper: one browser page threaded through the traversal *)

Module Scraper.

(** The documents a navigation yields; [None] is a navigation that
    fails, which [page.goto] reports by throwing. *)
Definition Web := jsstring -> option Document.

(** The fields of [CapitalCityScraper]; an open page is known by the
    document it currently shows. *)
Record State : Type := {
  browser : option unit;
  page : option Document
}.

Definition newScraper : State := {| browser := None; page := None |}.

Definition startUrl : jsstring :=
  lit "https://en.wikipedia.org/wiki/List_of_European_countries_by_area".

(** The document of a page just opened (about:blank). *)
Definition blankDocument : Document :=
  Element {| tagName := "html"; classList := []; innerText := [];
             href := []; src := [] |}
          [Element {| tagName := "head"; classList := []; innerText := [];
                      href := []; src := [] |} [];
           Element {| tagName := "body"; classList := []; innerText := [];
                      href := []; src := [] |} []].

(** An asynchronous method: from the state to a thrown error, or a value
    and the state after. *)
Definition M (A : Type) : Type := State -> completion (A * State).

Definition ret {A : Type} (a : A) : M A := fun s => Normal (a, s).

Definition bind {A B : Type} (c : M A) (k : A -> M B) : M B :=
  fun s =>
    match c s with
    | Throw e => Throw e
    | Normal (a, s') => k a s'
    end.

Declare Scope scraper_scope.
Delimit Scope scraper_scope with scraper.
Notation "x <- c ;; k" := (bind c (fun x => k))
  (at level 61, c at next level, right associativity) : scraper_scope.
Local Open Scope scraper_scope.

Section WithWeb.
Variable web : Web.

(** [this.page.goto(url)] *)
Definition goto (target : jsstring) : M unit :=
  fun s =>
    match page s with
    | None => Throw TypeError
    | Some _ =>
        match web target with
        | None => Throw NavigationError
        | Some d => Normal (tt, {| browser := browser s; page := Some d |})
        end
    end.

(** [this.page.evaluate(f)] *)
Definition evaluate {A : Type} (f : Document -> completion A) : M A :=
  fun s =>
    match page s with
    | None => Throw TypeError
    | Some d =>
        match f d with
        | Throw e => Throw e
        | Normal a => Normal (a, s)
        end
    end.

(** [init]: a browser and a page are opened when there is none yet
    (launching and opening are taken to succeed), then the page goes to
    the start URL. *)
Definition init : M unit :=
  fun s =>
    let b := match browser s with None => Some tt | Some b => Some b end in
    let p := match page s with None => Some blankDocument | Some d => Some d end in
    goto startUrl {| browser := b; page := p |}.

Definition scrapeCityDetails (capitalCity : option City) (c : Country)
  : M (option (list CityDetails)) :=
  fun s =>
    match page s with
    | None => Throw (Error "Page is not initialized.")
    | Some _ =>
        (citiesDetailsList <-
           match capitalCity with
           | Some city =>
               _ <- goto (cityUrl city) ;;
               details <- evaluate capitalCityDetails ;;
               ret [ {| name := cityName city;
                        url := cityUrl city;
                        country := Some (countryName c);
                        area := d_area details;
                        population := d_population details;
                        flagIconPath := d_flagIconPath details |} ]
           | None => ret []
           end ;;
         ret (match citiesDetailsList with
              | [] => None
              | _ => Some citiesDetailsList
              end)) s
    end.

(** One iteration of the [for ... of] loop. *)
Definition visitCountry (citiesDetailsList : list CityDetails)
           (c : Country) : M (list CityDetails) :=
  _ <- goto (countryUrl c) ;;
  capital <- evaluate (fun d => Normal (capitalCity d)) ;;
  match capital with
  | Some city =>
      cityDetails <- scrapeCityDetails (Some city) c ;;
      match cityDetails with
      | Some l => ret (citiesDetailsList ++ l)
      | None => ret citiesDetailsList
      end
  | None => ret citiesDetailsList
  end.

Fixpoint forCountries (countries : list Country)
         (citiesDetailsList : list CityDetails) : M (list CityDetails) :=
  match countries with
  | [] => ret citiesDetailsList
  | c :: rest =>
      l <- visitCountry citiesDetailsList c ;;
      forCountries rest l
  end.

Definition scrapeCountries : M (list CityDetails) :=
  fun s =>
    match page s with
    | None => Throw (Error "Page is not initialized.")
    | Some _ =>
        (countries <- evaluate (fun d => Normal (countriesList d)) ;;
         forCountries countries []) s
    end.

(** The program: initialise, then scrape. *)
Definition run : M (list CityDetails) :=
  _ <- init ;; scrapeCountries.

End WithWeb.

End Scraper.
Import Scraper.

(* ================================================================== *)
(** ** Reference notions the statements below are phrased with *)

Module Reference.

(** The element siblings that follow a position, in order. *)
Fixpoint siblingsFrom (up : list Position) (l r : list Node)
  : list ElementRef :=
  match r with
  | [] => []
  | Text t :: r' => siblingsFrom up (Text t :: l) r'
  | Element d cs :: r' =>
      {| children := cs;
         self := {| here := d; before := l; after := r' |};
         ancestors := up |}
      :: siblingsFrom up (Element d cs :: l) r'
  end.

Definition followingSiblings (e : ElementRef) : list ElementRef :=
  siblingsFrom (ancestors e) (asNode e :: before (self e)) (after (self e)).

Definition startsSection (r : ElementRef) : bool :=
  classContains r "mergedtoprow".

(** The tree around a node: [n] put back between its siblings [l] and [r]
    under the ancestors [up]. *)
Fixpoint plug (n : Node) (l r : list Node) (up : list Position) : Node :=
  match up with
  | [] => n
  | p :: up' =>
      plug (Element (here p) (rev l ++ n :: r)) (before p) (after p) up'
  end.

(** The document an element belongs to. *)
Definition documentOf (e : ElementRef) : Document :=
  plug (asNode e) (before (self e)) (after (self e)) (ancestors e).

(** The outermost position is that of a root: it has no siblings. *)
Fixpoint rooted (l r : list Node) (up : list Position) : Prop :=
  match up with
  | [] => l = [] /\ r = []
  | p :: up' => rooted (before p) (after p) up'
  end.

Definition wellPlaced (e : ElementRef) : Prop :=
  rooted (before (self e)) (after (self e)) (ancestors e).

(** The place of an element in the tree: the indices, among the child
    nodes, that lead from the root to it. *)
Definition index (p : Position) : nat := List.length (before p).

Definition pathOf (e : ElementRef) : list nat :=
  rev (map index (self e :: ancestors e)).

(** The place of the innermost of the ancestors [up]. *)
Definition basePath (up : list Position) : list nat := rev (map index up).

(** Rows under one parent, at increasing indices from [from] on. *)
Definition ascendingRows (up : list Position) (from : nat)
           (rows : list ElementRef) : Prop :=
  Forall (fun r => ancestors r = up /\ from <= index (self r)) rows
  /\ StronglySorted (fun a b => index (self a) < index (self b)) rows.

(** Document order on places: an ancestor comes before its descendants,
    an earlier sibling and its subtree before a later one. *)
Fixpoint precedes (p q : list nat) : bool :=
  match p, q with
  | [], [] => false
  | [], _ :: _ => true
  | _ :: _, [] => false
  | a :: p', b :: q' => (a <? b) || ((a =? b) && precedes p' q')
  end.

Definition comesBefore (a b : ElementRef) : Prop :=
  precedes (pathOf a) (pathOf b) = true.

(** A sequence of elements in document order, without repetition. *)
Definition inDocumentOrder (es : list ElementRef) : Prop :=
  StronglySorted comesBefore es.

(** The numeric string derived from the text of one cell. *)
Definition valueOfText (text : jsstring) : option jsstring :=
  if truthy text
  then Some (toString (parseFloat (removeCommas text)))
  else None.

(** The first cell, in the flattened sequence of the label's blocks,
    whose trimmed text matches the pattern. *)
Definition firstMatch (document : Document) (label : jsstring)
           (regex : jsstring -> bool) : option ElementRef :=
  match labelRows document label with
  | Normal rows => find (fun td => regex (cellText td)) (dataCells rows)
  | Throw _ => None
  end.

(** Whether the page of a country yields a capital link. *)
Definition hasCapitalLink (web : Web) (c : Country) : bool :=
  match web (countryUrl c) with
  | Some d => match capitalCity d with Some _ => true | None => false end
  | None => false
  end.

(** The record pushed for a capital city. *)
Definition recordOf (city : City) (c : Country) (details : Details)
  : CityDetails :=
  {| name := cityName city;
     url := cityUrl city;
     country := Some (countryName c);
     area := d_area details;
     population := d_population details;
     flagIconPath := d_flagIconPath details |}.

(** The scraper once its page shows the document [d]. *)
Definition showing (s : State) (d : Document) : State :=
  {| browser := browser s; page := Some d |}.

(** Two completions with the same outcome for the caller that leave the
    page showing the same document. *)
Definition agree {A : Type} (c1 c2 : completion (A * State)) : Prop :=
  match c1, c2 with
  | Normal (a1, s1), Normal (a2, s2) => a1 = a2 /\ page s1 = page s2
  | Throw e1, Throw e2 => e1 = e2
  | _, _ => False
  end.

(** A method that reads nothing of the scraper but the document its page
    shows. *)
Definition readsPageOnly {A : Type} (m : M A) : Prop :=
  forall s1 s2, page s1 = page s2 -> agree (m s1) (m s2).

(** What the caller of an asynchronous method observes. *)
Definition output {A : Type} (c : completion (A * State)) : completion A :=
  match c with
  | Normal (a, _) => Normal a
  | Throw e => Throw e
  end.

End Reference.
Import Reference.

(* ================================================================== *)
(** ** Fixture documents *)

Module Fixture.

Definition el (t : string) (cs : list string) (kids : list Node) : Node :=
  Element {| tagName := t; classList := cs; innerText := [];
             href := []; src := [] |} kids.

Definition txt (s : string) : Node := Text (lit s).

Definition anchor (text target : string) : Node :=
  Element {| tagName := "a"; classList := []; innerText := lit text;
             href := lit target; src := [] |} [txt text].

Definition img (cs : list string) (source : string) : Node :=
  Element {| tagName := "img"; classList := cs; innerText := [];
             href := []; src := lit source |} [].

Definition page_ (body : list Node) : Document :=
  el "html" [] [el "head" [] []; el "body" [] body].

Local Open Scope string_scope.

(** The list page: three countries. *)
Definition listPage : Document :=
  page_ [el "table" ["wikitable"; "sortable"]
    [el "tbody" []
      [el "tr" [] [el "th" [] [txt "Rank"]; el "th" [] [txt "Country"]];
       el "tr" [] [el "td" [] [txt "1"];
                   el "td" [] [anchor "Germany" "https://w/Germany"]];
       el "tr" [] [el "td" [] [txt "2"];
                   el "td" [] [anchor "Atlantis" "https://w/Atlantis"]];
       el "tr" [] [el "td" [] [txt "3"];
                   el "td" [] [anchor "France" "https://w/France"]]]]].

Definition countryPage (capital target : string) : Document :=
  page_ [el "table" ["infobox"; "ib-country"; "vcard"]
    [el "tbody" []
      [el "tr" [] [el "th" [] [txt "Motto"];
                   el "td" ["infobox-data"] [txt "Unity"]];
       el "tr" [] [el "th" [] [txt "Capital"; txt "and largest city"];
                   el "td" ["infobox-data"] [anchor capital target]]]]].

(** A country page whose panel has no row mentioning a capital. *)
Definition noCapitalPage : Document :=
  page_ [el "table" ["infobox"; "ib-country"; "vcard"]
    [el "tbody" []
      [el "tr" [] [el "th" [] [txt "Motto"];
                   el "td" ["infobox-data"] [anchor "Unity" "https://w/U"]]]]].

(** A country page with two rows mentioning "Capital": the first has no
    link, the second has one. *)
Definition twoCapitalRowsPage : Document :=
  page_ [el "table" ["infobox"; "ib-country"; "vcard"]
    [el "tbody" []
      [el "tr" [] [el "th" [] [txt "Capital"];
                   el "td" ["infobox-data"] [txt "none designated"]];
       el "tr" [] [el "th" [] [txt "Capital-in-exile"];
                   el "td" ["infobox-data"]
                      [anchor "Elsewhere" "https://w/Elsewhere"]]]]].

Definition flagRow (source : string) : Node :=
  el "tr" ["mergedtoprow"]
     [el "td" ["infobox-full-data"; "maptable"]
         [el "a" [] [img ["mw-file-element"] source]]].

Definition headerRow (label : string) : Node :=
  el "tr" ["mergedtoprow"] [el "th" [] [txt label]].

Definition valueRow (label value : string) : Node :=
  el "tr" ["mergedrow"]
     [el "th" [] [txt label]; txt " ";
      el "td" ["infobox-data"] [txt value]].

Definition settlement (rows : list Node) : Document :=
  page_ [el "table" ["infobox"; "ib-settlement"; "vcard"]
           [el "tbody" [] rows]].

Definition berlinPage : Document :=
  settlement
    [flagRow "https://img/Berlin.svg";
     headerRow "Area";
     valueRow "Capital city" " 357,021 km2 (137,847 sq mi) ";
     valueRow "Elevation" "34 m (112 ft)";
     headerRow "Population (2021)";
     valueRow "Capital city" "83,166,711 (2021 estimate)";
     valueRow "Urban" "4,473,101";
     headerRow "Time zone";
     valueRow "Summer" "UTC+2"].

(** A capital page without an area figure. *)
Definition parisPage : Document :=
  settlement
    [flagRow "https://img/Paris.svg";
     headerRow "Population";
     valueRow "Capital city" "1,234,567"].

(** A capital page whose population cell is a lone separator. *)
Definition placeholderPage : Document :=
  settlement
    [headerRow "Population";
     valueRow "Capital city" ","].

(** A capital page with no panel at all. *)
Definition emptyPage : Document := page_ [el "p" [] [txt "Stub"]].

Definition fixtureWeb : Web :=
  fun u =>
    if JSString.eqb u startUrl then Some listPage
    else if JSString.eqb u (lit "https://w/Germany")
         then Some (countryPage "Berlin" "https://w/Berlin")
    else if JSString.eqb u (lit "https://w/Atlantis") then Some noCapitalPage
    else if JSString.eqb u (lit "https://w/France")
         then Some (countryPage "Paris" "https://w/Paris")
    else if JSString.eqb u (lit "https://w/Berlin") then Some berlinPage
    else if JSString.eqb u (lit "https://w/Paris") then Some parisPage
    else None.

End Fixture.

(* ================================================================== *)
(** ** The traversal as a function of the documents *)

Module Expected.

Definition valueOfMatch (m : option ElementRef) : option jsstring :=
  match m with
  | Some td => valueOfText (cellText td)
  | None => None
  end.

(** The three fields read off a capital page. *)
Definition detailsOf (d : Document) : Details :=
  {| d_flagIconPath := flagIconPathOf d;
     d_area := valueOfMatch (firstMatch d (lit "Area") (test areaRegex));
     d_population :=
       valueOfMatch (firstMatch d (lit "Population") (test populationRegex)) |}.

(** What one country adds to the output; [None] when a page it needs
    cannot be opened. *)
Definition visit (web : Web) (c : Country) : option (list CityDetails) :=
  match web (countryUrl c) with
  | None => None
  | Some d =>
      match capitalCity d with
      | None => Some []
      | Some city =>
          match web (cityUrl city) with
          | None => None
          | Some d' => Some [recordOf city c (detailsOf d')]
          end
      end
  end.

Fixpoint visitAll (web : Web) (countries : list Country)
  : option (list CityDetails) :=
  match countries with
  | [] => Some []
  | c :: rest =>
      match visit web c, visitAll web rest with
      | Some r, Some rs => Some (r ++ rs)
      | _, _ => None
      end
  end.

End Expected.
Import Expected.

(* ================================================================== *)
(** ** More fixture documents *)

Module MoreFixtures.

Local Open Scope string_scope.

(** The fixture web with the page of France out of reach. *)
Definition brokenWeb : Web :=
  fun u =>
    if JSString.eqb u (lit "https://w/France") then None
    else Fixture.fixtureWeb u.

(** A capital page where the label "Population" occurs in two headers. *)
Definition densityPage : Document :=
  Fixture.settlement
    [Fixture.headerRow "Population";
     Fixture.valueRow "Total" "3,677,472";
     Fixture.headerRow "Population density";
     Fixture.valueRow "Density" "4,100"].

(** A capital page with two flag images. *)
Definition twoFlagsPage : Document :=
  Fixture.settlement
    [Fixture.flagRow "https://img/Flag.svg";
     Fixture.flagRow "https://img/Seal.svg"].

(** A list page whose second cells hold a flag link nested in a span
    before the country link. *)
Definition flaggedListPage : Document :=
  Fixture.page_ [Fixture.el "table" ["wikitable"]
    [Fixture.el "tbody" []
      [Fixture.el "tr" []
         [Fixture.el "td" [] [Fixture.anchor "1" "https://w/Rank"];
          Fixture.el "td" []
            [Fixture.el "span" ["flagicon"]
               [Fixture.anchor "" "https://w/Flag_of_Germany"];
             Fixture.anchor "Germany" "https://w/Germany"]]]]].

(** A capital page where a section row holds a figure, then a cell with a
    nested table whose row has a "Population" header and a figure, then a
    "Population" header of its own: the block of the nested header lies
    inside the block of the outer one. *)
Definition nestedHeaderPage : Document :=
  Fixture.settlement
    [Fixture.el "tr" ["mergedtoprow"]
       [Fixture.el "td" [] [Fixture.txt "100"];
        Fixture.el "td" []
          [Fixture.el "table" []
             [Fixture.el "tbody" []
                [Fixture.el "tr" []
                   [Fixture.el "th" [] [Fixture.txt "Population"];
                    Fixture.el "td" [] [Fixture.txt "200"]]]]];
        Fixture.el "th" [] [Fixture.txt "Population"]]].

End MoreFixtures.

(* ================================================================== *)
(** ** Digit strings *)

Module Digits.

(** The code units of the digits of a decimal numeral. *)
Fixpoint codes (d : Decimal.uint) : jsstring :=
  match d with
  | Decimal.Nil => []
  | Decimal.D0 d => 48%N :: codes d
  | Decimal.D1 d => 49%N :: codes d
  | Decimal.D2 d => 50%N :: codes d
  | Decimal.D3 d => 51%N :: codes d
  | Decimal.D4 d => 52%N :: codes d
  | Decimal.D5 d => 53%N :: codes d
  | Decimal.D6 d => 54%N :: codes d
  | Decimal.D7 d => 55%N :: codes d
  | Decimal.D8 d => 56%N :: codes d
  | Decimal.D9 d => 57%N :: codes d
  end.

(** The numeral of a digit string. *)
Fixpoint numeral (ds : jsstring) : Decimal.uint :=
  match ds with
  | [] => Decimal.Nil
  | c :: t =>
      let d := numeral t in
      if (c =? 48)%N then Decimal.D0 d else if (c =? 49)%N then Decimal.D1 d
      else if (c =? 50)%N then Decimal.D2 d else if (c =? 51)%N then Decimal.D3 d
      else if (c =? 52)%N then Decimal.D4 d else if (c =? 53)%N then Decimal.D5 d
      else if (c =? 54)%N then Decimal.D6 d else if (c =? 55)%N then Decimal.D7 d
      else if (c =? 56)%N then Decimal.D8 d else Decimal.D9 d
  end.

(** One step of [digitsValue]. *)
Definition digitStep (acc : Z) (c : N) : Z := (10 * acc + digitVal c)%Z.

(** A rest after which a number cannot go on: nothing, or a first code
    unit that is no digit, dot or exponent sign. *)
Definition endsNumber (rest : jsstring) : bool :=
  match rest with
  | [] => true
  | c :: _ =>
      negb (isDigit c || (c =? 46)%N || (c =? 101)%N || (c =? 69)%N)
  end.

(** A digit or the decimal point. *)
Definition digitOrDot (c : N) : bool := isDigit c || (c =? 46)%N.

End Digits.
Import Digits.

Unset Implicit Arguments.

(* ================================================================== *)
(** ** Lists and strings *)

Section ListFacts.
Context {A : Type} (p : A -> bool).

Lemma hd_error_filter (l : list A) : hd_error (filter p l) = find p l.
Proof.
  induction l as [|x l IH]; simpl; [reflexivity|].
  destruct (p x); simpl; auto.
Qed.

Lemma filter_nil_iff (l : list A) :
  filter p l = [] <-> forall x, In x l -> p x = false.
Proof.
  induction l as [|x l IH]; simpl.
  - split; [intros _ y []|reflexivity].
  - destruct (p x) eqn:Hx; split.
    + discriminate.
    + intros H. specialize (H x (or_introl eq_refl)). congruence.
    + intros H y [<-|Hy]; [assumption|]. now apply IH.
    + intros H. apply IH. intros y Hy. apply H. now right.
Qed.

Lemma find_first (pre : list A) (x : A) (post : list A) :
  (forall y, In y pre -> p y = false) -> p x = true ->
  find p (pre ++ x :: post) = Some x.
Proof.
  induction pre as [|y pre IH]; simpl; intros Hpre Hx.
  - now rewrite Hx.
  - rewrite (Hpre y (or_introl eq_refl)). apply IH; auto.
Qed.

Lemma find_split (l : list A) (x : A) :
  find p l = Some x ->
  exists pre post,
    l = pre ++ x :: post /\ (forall y, In y pre -> p y = false) /\ p x = true.
Proof.
  induction l as [|y l IH]; simpl; [discriminate|].
  destruct (p y) eqn:Hy.
  - intros [= <-]. exists [], l. repeat split; auto. intros ? [].
  - intros H. destruct (IH H) as (pre & post & -> & Hpre & Hx).
    exists (y :: pre), post. repeat split; auto.
    intros z [<-|Hz]; auto.
Qed.

Lemma find_none_iff (l : list A) :
  find p l = None <-> forall x, In x l -> p x = false.
Proof.
  rewrite <- filter_nil_iff, <- hd_error_filter.
  destruct (filter p l); simpl; split; congruence.
Qed.
End ListFacts.

Lemma startsWith_spec (s pat : jsstring) :
  startsWith s pat = true <-> exists post, s = pat ++ post.
Proof.
  revert s. induction pat as [|c pat IH]; intros s; simpl.
  - split; [intros _; now exists s|reflexivity].
  - destruct s as [|d s]; simpl.
    + split; [discriminate|intros [post H]; discriminate].
    + rewrite andb_true_iff, N.eqb_eq, IH. split.
      * intros [-> [post ->]]. now exists post.
      * intros [post [= -> ->]]. split; [reflexivity|now exists post].
Qed.

(** [includes] is the substring relation on code units. *)
Lemma includes_spec (s pat : jsstring) :
  includes s pat = true <-> exists pre post, s = pre ++ pat ++ post.
Proof.
  induction s as [|c s IH].
  - simpl. rewrite orb_false_r, startsWith_spec. split.
    + intros [post H]. now exists [], post.
    + intros (pre & post & H). destruct pre; simpl in H.
      * now exists post.
      * discriminate.
  - cbn [includes]. rewrite orb_true_iff, startsWith_spec, IH. split.
    + intros [[post H]|(pre & post & ->)].
      * now exists [], post.
      * now exists (c :: pre), post.
    + intros (pre & post & H). destruct pre as [|d pre]; simpl in H.
      * left. now exists post.
      * right. injection H as _ ->. now exists pre, post.
Qed.

(* ================================================================== *)
(** ** The matcher decides membership in the language *)

Lemma denotes_Never_inv (s : jsstring) : ~ denotes Never s.
Proof. inversion 1. Qed.

Lemma denotes_Eps_inv (s : jsstring) : denotes Eps s -> s = [].
Proof. now inversion 1. Qed.

Lemma denotes_Class_inv (p : N -> bool) (s : jsstring) :
  denotes (Class p) s -> exists c, s = [c] /\ p c = true.
Proof. inversion 1; subst. eauto. Qed.

Lemma denotes_Seq_inv (a b : regex) (s : jsstring) :
  denotes (Seq a b) s ->
  exists s1 s2, s = s1 ++ s2 /\ denotes a s1 /\ denotes b s2.
Proof. inversion 1; subst. eauto. Qed.

Lemma denotes_Alt_inv (a b : regex) (s : jsstring) :
  denotes (Alt a b) s -> denotes a s \/ denotes b s.
Proof. inversion 1; subst; auto. Qed.

Lemma nullable_denotes (r : regex) :
  nullable r = true <-> denotes r [].
Proof.
  induction r as [| |p|a IHa b IHb|a IHa b IHb|a IHa]; simpl.
  - split; [discriminate|]. intros H. now apply denotes_Never_inv in H.
  - split; [constructor|reflexivity].
  - split; [discriminate|]. intros H. apply denotes_Class_inv in H.
    destruct H as (c & Heq & _). discriminate.
  - rewrite andb_true_iff, IHa, IHb. split.
    + intros [Ha Hb]. exact (@denotes_seq a b [] [] Ha Hb).
    + intros H. apply denotes_Seq_inv in H.
      destruct H as (s1 & s2 & Heq & Ha & Hb). symmetry in Heq.
      apply app_eq_nil in Heq. destruct Heq as [-> ->]. auto.
  - rewrite orb_true_iff, IHa, IHb. split.
    + intros [H|H]; [now apply denotes_alt_l|now apply denotes_alt_r].
    + apply denotes_Alt_inv.
  - split; [constructor|reflexivity].
Qed.

Lemma denotes_seq' (a b : regex) (s : jsstring) :
  denotes (seq' a b) s <-> denotes (Seq a b) s.
Proof.
  destruct a; simpl; try reflexivity.
  split; intros H.
  - now apply denotes_Never_inv in H.
  - apply denotes_Seq_inv in H. destruct H as (s1 & s2 & _ & H & _).
    now apply denotes_Never_inv in H.
Qed.

Lemma denotes_alt' (a b : regex) (s : jsstring) :
  denotes (alt' a b) s <-> denotes (Alt a b) s.
Proof.
  split.
  - destruct a, b; simpl; intros H;
      solve [ exact H
            | now apply denotes_alt_l
            | now apply denotes_alt_r ].
  - intros H. apply denotes_Alt_inv in H. destruct H as [H|H].
    + destruct a, b; simpl;
        solve [ exact H | now apply denotes_alt_l
              | exfalso; exact (denotes_Never_inv _ H) ].
    + destruct a, b; simpl;
        solve [ exact H | now apply denotes_alt_r
              | exfalso; exact (denotes_Never_inv _ H) ].
Qed.

Lemma denotes_star_cons (a : regex) (w : jsstring) :
  denotes (Star a) w ->
  forall c s, w = c :: s ->
  exists s1 s2, s = s1 ++ s2 /\ denotes a (c :: s1) /\ denotes (Star a) s2.
Proof.
  intros H. remember (Star a) as r eqn:Hr. revert Hr.
  induction H as [|p c0 Hp|x y s1 s2 H1 IH1 H2 IH2|x y s0 H0 IH0
                  |x y s0 H0 IH0|x|x s1 s2 H1 IH1 H2 IH2];
    intros Hr; try discriminate.
  injection Hr as ->. intros c s Heq.
  destruct s1 as [|c1 s1]; simpl in Heq.
  - now apply IH2.
  - injection Heq as -> <-. now exists s1, s2.
Qed.

Lemma deriv_denotes (c : N) (r : regex) :
  forall s, denotes (deriv c r) s <-> denotes r (c :: s).
Proof.
  induction r as [| |p|a IHa b IHb|a IHa b IHb|a IHa]; intros s; simpl.
  - split; intros H; now apply denotes_Never_inv in H.
  - split; intros H; [now apply denotes_Never_inv in H|].
    apply denotes_Eps_inv in H. discriminate.
  - destruct (p c) eqn:Hp; split; intros H.
    + apply denotes_Eps_inv in H. subst s. now constructor.
    + apply denotes_Class_inv in H. destruct H as (c' & [= <- ->] & _).
      constructor.
    + now apply denotes_Never_inv in H.
    + apply denotes_Class_inv in H. destruct H as (c' & [= <- ->] & Hc).
      congruence.
  - rewrite denotes_alt'. split; intros H.
    + apply denotes_Alt_inv in H. destruct H as [H|H].
      * apply denotes_seq', denotes_Seq_inv in H.
        destruct H as (s1 & s2 & -> & Ha & Hb).
        apply IHa in Ha. exact (@denotes_seq a b (c :: s1) s2 Ha Hb).
      * destruct (nullable a) eqn:Hn; [|now apply denotes_Never_inv in H].
        apply nullable_denotes in Hn. apply IHb in H.
        exact (@denotes_seq a b [] (c :: s) Hn H).
    + apply denotes_Seq_inv in H. destruct H as (s1 & s2 & Heq & Ha & Hb).
      destruct s1 as [|c1 s1]; simpl in Heq.
      * subst s2. apply denotes_alt_r.
        apply nullable_denotes in Ha. rewrite Ha. now apply IHb.
      * injection Heq as <- ->. apply denotes_alt_l, denotes_seq'.
        constructor; [now apply IHa|assumption].
  - rewrite denotes_alt'. split; intros H; apply denotes_Alt_inv in H;
      (destruct H as [H|H];
       [apply denotes_alt_l; now apply IHa|apply denotes_alt_r; now apply IHb]).
  - rewrite denotes_seq'. split; intros H.
    + apply denotes_Seq_inv in H. destruct H as (s1 & s2 & -> & Ha & Hb).
      apply IHa in Ha. exact (@denotes_star_more a (c :: s1) s2 Ha Hb).
    + destruct (denotes_star_cons a (c :: s) H c s eq_refl)
        as (s1 & s2 & -> & Ha & Hb).
      constructor; [now apply IHa|assumption].
Qed.

(** [test] holds exactly of the words of the expression. *)
Lemma test_denotes (r : regex) (s : jsstring) :
  test r s = true <-> denotes r s.
Proof.
  unfold test. revert r.
  induction s as [|c s IH]; intros r; simpl.
  - apply nullable_denotes.
  - rewrite IH. apply deriv_denotes.
Qed.

(** The patterns on sample texts. *)
Example pattern_samples :
  map (test areaRegex)
      [lit "891.3 km2"; lit "357,021 km2 (137,847 sq mi)"; lit "357,021 sq mi";
       lit "891.3km2"; lit "about 5 km2"; lit "891" ++ 160%N :: lit "km2"]
  = [true; true; false; false; false; true]
  /\ map (test populationRegex)
         [lit "3,677,472"; lit "83,166,711 (2021 estimate)"; lit "3,677,472[1]";
          lit "1.5 million"; lit ","; lit ""; lit "12 (a) (b)"]
     = [true; true; false; false; true; false; true].
Proof. split; vm_compute; reflexivity. Qed.

(** [parseFloat] followed by [toString] on sample texts. *)
Example number_samples :
  map (fun s => toString (parseFloat s))
      [lit "357021 km2 (137847 sq mi)"; lit "891.3 km2"; lit "0.1";
       lit "1.50"; lit "5.e3"; lit "-0"; lit "1e21"; lit "1e-7";
       lit "123456789012345678901"; lit "9007199254740993";
       lit "1.8e308"; lit "2e-324"; lit "."; lit ""; lit ".5.6"]
  = [lit "357021"; lit "891.3"; lit "0.1";
     lit "1.5"; lit "5000"; lit "0"; lit "1e+21"; lit "1e-7";
     lit "123456789012345680000"; lit "9007199254740992";
     lit "Infinity"; lit "0"; lit "NaN"; lit "NaN"; lit "0.5"].
Proof. vm_compute. reflexivity. Qed.

(* ================================================================== *)
(** ** Header rows and their blocks *)

Lemma Within_has_ancestor (s : selector) (c : compound) (e : ElementRef) :
  selects (Within s c) e = true -> ancestors e <> [].
Proof.
  unfold selects. simpl. destruct (ancestors e); [|discriminate].
  now rewrite andb_false_r.
Qed.

Lemma sectionHeader_parent (document : Document) (th : ElementRef) :
  In th (querySelectorAll document sectionHeaders) ->
  exists row, parentElement th = Some row.
Proof.
  unfold querySelectorAll. rewrite filter_In. intros [_ H].
  apply Within_has_ancestor in H. unfold parentElement.
  destruct (ancestors th); [congruence|eauto].
Qed.

Lemma parents_exist (document : Document) (ths : list ElementRef) :
  (forall th, In th ths -> In th (querySelectorAll document sectionHeaders)) ->
  exists rows, map parentElement ths = map Some rows.
Proof.
  induction ths as [|th ths IH]; intros H.
  - now exists [].
  - destruct (sectionHeader_parent document th) as [row Hrow].
    { apply H. now left. }
    destruct IH as [rows Hrows]. { intros. apply H. now right. }
    exists (row :: rows). simpl. now rewrite Hrow, Hrows.
Qed.

Lemma collectRows_blocks (rows acc : list ElementRef) :
  collectRows acc (map Some rows) = Normal (acc ++ flat_map block rows).
Proof.
  revert acc. induction rows as [|row rows IH]; intros acc; simpl.
  - now rewrite app_nil_r.
  - rewrite IH. now rewrite <- app_assoc.
Qed.

(** The reducer never meets a null parent: a header selected by
    ['.mergedtoprow th'] has an ancestor, hence a parent. *)
Lemma labelRows_blocks (document : Document) (label : jsstring) :
  exists rows,
    map parentElement (labelHeaders document label) = map Some rows
    /\ labelRows document label = Normal (flat_map block rows).
Proof.
  destruct (parents_exist document (labelHeaders document label)) as [rows H].
  { unfold labelHeaders. intros th Hth. now apply filter_In in Hth. }
  exists rows. split; [assumption|].
  unfold labelRows. rewrite H. apply collectRows_blocks.
Qed.

Lemma nextRows_takeWhile (up : list Position) (r l : list Node) (fuel : nat) :
  List.length r < fuel ->
  nextRows fuel (firstElement up l r)
  = takeWhile (fun x => negb (startsSection x)) (siblingsFrom up l r).
Proof.
  revert l fuel. induction r as [|n r IH]; intros l fuel Hfuel.
  - simpl. now destruct fuel.
  - destruct n as [t|d cs]; simpl in *.
    + apply IH. lia.
    + destruct fuel as [|fuel]; [lia|]. simpl.
      unfold startsSection at 1.
      destruct (classContains _ _); simpl; [reflexivity|].
      f_equal. unfold nextElementSibling. simpl. apply IH. lia.
Qed.

Lemma block_spec (row : ElementRef) :
  block row
  = row :: takeWhile (fun r => negb (startsSection r)) (followingSiblings row).
Proof.
  unfold block, followingSiblings, nextElementSibling. f_equal.
  apply nextRows_takeWhile. lia.
Qed.

(* ================================================================== *)
(** ** Document order *)

Lemma precedes_common_prefix (base p q : list nat) :
  precedes (base ++ p) (base ++ q) = precedes p q.
Proof.
  induction base as [|a base IH]; simpl; [reflexivity|].
  now rewrite Nat.ltb_irrefl, Nat.eqb_refl, IH.
Qed.

Lemma precedes_extension (base : list nat) (j : nat) (suffix : list nat) :
  precedes base (base ++ j :: suffix) = true.
Proof.
  rewrite <- (app_nil_r base) at 1. now rewrite precedes_common_prefix.
Qed.

Lemma precedes_earlier_sibling (base : list nat) (i j : nat)
      (s1 s2 : list nat) :
  i < j -> precedes (base ++ i :: s1) (base ++ j :: s2) = true.
Proof.
  intros Hlt. rewrite precedes_common_prefix. simpl.
  apply Nat.ltb_lt in Hlt. now rewrite Hlt.
Qed.

Lemma StronglySorted_app {A : Type} (R : A -> A -> Prop) (l1 l2 : list A) :
  StronglySorted R l1 -> StronglySorted R l2 ->
  (forall a b, In a l1 -> In b l2 -> R a b) ->
  StronglySorted R (l1 ++ l2).
Proof.
  induction l1 as [|x l1 IH]; simpl; intros H1 H2 Hcross; [assumption|].
  apply StronglySorted_inv in H1. destruct H1 as [H1 Hx].
  constructor.
  - apply IH; auto.
  - apply Forall_app. split; [assumption|].
    apply Forall_forall. intros b Hb. apply Hcross; auto.
Qed.

Lemma StronglySorted_filter {A : Type} (R : A -> A -> Prop) (f : A -> bool)
      (l : list A) :
  StronglySorted R l -> StronglySorted R (filter f l).
Proof.
  induction 1 as [|x l Hl IH Hx]; simpl; [constructor|].
  destruct (f x); [|assumption]. constructor; [assumption|].
  rewrite Forall_forall in *. intros y Hy. apply Hx.
  now apply filter_In in Hy.
Qed.

Lemma StronglySorted_takeWhile {A : Type} (R : A -> A -> Prop)
      (f : A -> bool) (l : list A) :
  StronglySorted R l -> StronglySorted R (takeWhile f l).
Proof.
  induction 1 as [|x l Hl IH Hx]; simpl; [constructor|].
  destruct (f x); constructor; [assumption|].
  rewrite Forall_forall in *. intros y Hy. apply Hx.
  clear - Hy. induction l as [|z l IHl]; simpl in Hy; [contradiction|].
  destruct (f z); [|contradiction]. destruct Hy as [<-|Hy]; [now left|].
  right. now apply IHl.
Qed.

Lemma In_takeWhile {A : Type} (f : A -> bool) (l : list A) (x : A) :
  In x (takeWhile f l) -> In x l.
Proof.
  induction l as [|z l IH]; simpl; [contradiction|].
  destruct (f z); [|contradiction]. intros [<-|H]; [now left|].
  right. now apply IH.
Qed.

Lemma elementsAt_Element (up : list Position) (l r : list Node)
      (d : ElementData) (cs : list Node) :
  elementsAt up l (Element d cs) r
  = {| children := cs;
       self := {| here := d; before := l; after := r |};
       ancestors := up |}
    :: elementsIn ({| here := d; before := l; after := r |} :: up) [] cs.
Proof.
  simpl. f_equal. generalize (@nil Node).
  induction cs as [|c cs IH]; intros l'; simpl; [reflexivity|].
  now rewrite IH.
Qed.

(** The elements enumerated under a node sit at or below its place, and
    come in document order. *)
Lemma elementsAt_order (n : Node) :
  forall up l r,
    (forall e, In e (elementsAt up l n r) ->
               exists suffix,
                 pathOf e = basePath up ++ List.length l :: suffix)
    /\ inDocumentOrder (elementsAt up l n r).
Proof.
  induction n as [t|d cs IHcs] using Node_nested_ind; intros up l r.
  - simpl. split; [intros e []|constructor].
  - rewrite elementsAt_Element.
    set (me := {| here := d; before := l; after := r |}).
    assert (Hin : forall l',
               (forall e, In e (elementsIn (me :: up) l' cs) ->
                          exists j suffix,
                            List.length l' <= j
                            /\ pathOf e = basePath (me :: up) ++ j :: suffix)
               /\ inDocumentOrder (elementsIn (me :: up) l' cs)).
    { induction IHcs as [|c cs Hc _ IH]; intros l'; simpl.
      - split; [intros e []|constructor].
      - destruct (Hc (me :: up) l' cs) as [Hpaths Hsorted].
        destruct (IH (c :: l')) as [Hpaths' Hsorted'].
        split.
        + intros e He. apply in_app_iff in He. destruct He as [He|He].
          * destruct (Hpaths e He) as [suffix ->]. eauto.
          * destruct (Hpaths' e He) as (j & suffix & Hj & ->).
            exists j, suffix. simpl in Hj. split; [lia|reflexivity].
        + apply StronglySorted_app; [assumption..|].
          intros a b Ha Hb.
          destruct (Hpaths a Ha) as [sa Hsa].
          destruct (Hpaths' b Hb) as (j & sb & Hj & Hsb).
          unfold comesBefore. rewrite Hsa, Hsb.
          apply precedes_earlier_sibling. simpl in Hj. lia. }
    destruct (Hin []) as [Hpaths Hsorted].
    assert (Hbase : basePath (me :: up) = basePath up ++ [List.length l]).
    { reflexivity. }
    split.
    + intros e [<-|He].
      * exists []. reflexivity.
      * destruct (Hpaths e He) as (j & suffix & _ & ->).
        exists (j :: suffix). now rewrite Hbase, <- app_assoc.
    + constructor; [assumption|]. apply Forall_forall. intros e He.
      destruct (Hpaths e He) as (j & suffix & _ & Hpath).
      unfold comesBefore. rewrite Hpath. apply precedes_extension.
Qed.

Lemma elementsIn_order (cs : list Node) :
  forall up l,
    (forall e, In e (elementsIn up l cs) ->
               exists j suffix,
                 List.length l <= j /\ pathOf e = basePath up ++ j :: suffix)
    /\ inDocumentOrder (elementsIn up l cs).
Proof.
  induction cs as [|c cs IH]; intros up l; simpl.
  - split; [intros e []|constructor].
  - destruct (elementsAt_order c up l cs) as [Hpaths Hsorted].
    destruct (IH up (c :: l)) as [Hpaths' Hsorted'].
    split.
    + intros e He. apply in_app_iff in He. destruct He as [He|He].
      * destruct (Hpaths e He) as [suffix ->]. eauto.
      * destruct (Hpaths' e He) as (j & suffix & Hj & ->).
        exists j, suffix. simpl in Hj. split; [lia|reflexivity].
    + apply StronglySorted_app; [assumption..|].
      intros a b Ha Hb.
      destruct (Hpaths a Ha) as [sa Hsa].
      destruct (Hpaths' b Hb) as (j & sb & Hj & Hsb).
      unfold comesBefore. rewrite Hsa, Hsb.
      apply precedes_earlier_sibling. simpl in Hj. lia.
Qed.

(** [document.querySelectorAll] returns its elements in document order. *)
Lemma querySelectorAll_order (document : Document) (s : selector) :
  inDocumentOrder (querySelectorAll document s).
Proof.
  apply StronglySorted_filter, elementsAt_order.
Qed.

Lemma descendants_below (row e : ElementRef) :
  In e (descendants row) ->
  exists j suffix, pathOf e = pathOf row ++ j :: suffix.
Proof.
  intros He.
  destruct (elementsIn_order (children row) (self row :: ancestors row) [])
    as [Hpaths _].
  destruct (Hpaths e He) as (j & suffix & _ & ->). now exists j, suffix.
Qed.

Lemma cells_of_row_order (row : ElementRef) (s : selector) :
  inDocumentOrder (querySelectorAllIn row s).
Proof.
  apply StronglySorted_filter, elementsIn_order.
Qed.

Lemma siblingsFrom_ascending (up : list Position) (r : list Node) :
  forall l, ascendingRows up (List.length l) (siblingsFrom up l r).
Proof.
  induction r as [|n r IH]; intros l; simpl.
  - split; constructor.
  - destruct n as [t|d cs].
    + destruct (IH (Text t :: l)) as [Hall Hsorted]. split; [|assumption].
      eapply Forall_impl; [|exact Hall]. simpl. intros a [? ?]. split; [auto|lia].
    + destruct (IH (Element d cs :: l)) as [Hall Hsorted]. simpl in Hall.
      split.
      * constructor; [split; [reflexivity|unfold index; simpl; lia]|].
        eapply Forall_impl; [|exact Hall]. simpl. intros a [? ?].
        split; [auto|lia].
      * constructor; [assumption|].
        eapply Forall_impl; [|exact Hall]. unfold index. simpl.
        intros a [_ ?]. lia.
Qed.

Lemma block_ascending (row : ElementRef) :
  ascendingRows (ancestors row) (index (self row)) (block row).
Proof.
  rewrite block_spec.
  destruct (siblingsFrom_ascending (ancestors row) (after (self row))
              (asNode row :: before (self row))) as [Hall Hsorted].
  fold (followingSiblings row) in Hall, Hsorted. simpl in Hall.
  assert (Hall' : Forall (fun r => ancestors r = ancestors row
                                   /\ S (index (self row)) <= index (self r))
                         (takeWhile (fun r => negb (startsSection r))
                                    (followingSiblings row))).
  { apply Forall_forall. intros r Hr. apply In_takeWhile in Hr.
    rewrite Forall_forall in Hall. now apply Hall. }
  split.
  - constructor; [auto|]. eapply Forall_impl; [|exact Hall'].
    simpl. intros a [? ?]. split; [auto|lia].
  - constructor; [now apply StronglySorted_takeWhile|].
    eapply Forall_impl; [|exact Hall']. simpl. intros a [_ ?]. lia.
Qed.

Lemma In_dataCells (rows : list ElementRef) (c : ElementRef) :
  In c (dataCells rows) ->
  exists row, In row rows /\ In c (descendants row).
Proof.
  unfold dataCells. rewrite in_concat. intros (cells & Hcells & Hc).
  apply in_map_iff in Hcells. destruct Hcells as (row & <- & Hrow).
  exists row. split; [assumption|].
  unfold querySelectorAllIn in Hc. now apply filter_In in Hc.
Qed.

Lemma pathOf_row (row : ElementRef) :
  pathOf row = basePath (ancestors row) ++ [index (self row)].
Proof. reflexivity. Qed.

Lemma dataCells_order (up : list Position) (rows : list ElementRef) :
  forall from, ascendingRows up from rows -> inDocumentOrder (dataCells rows).
Proof.
  induction rows as [|row rows IH]; intros from [Hall Hsorted].
  - constructor.
  - unfold dataCells. simpl. fold (dataCells rows).
    apply Forall_cons_iff in Hall. destruct Hall as [[Hup Hfrom] Hall].
    apply StronglySorted_inv in Hsorted. destruct Hsorted as [Hsorted Hlt].
    apply StronglySorted_app.
    + apply cells_of_row_order.
    + apply (IH from). now split.
    + intros a b Ha Hb.
      unfold querySelectorAllIn in Ha. apply filter_In in Ha.
      destruct Ha as [Ha _]. apply descendants_below in Ha.
      destruct Ha as (ja & sa & Hpa).
      apply In_dataCells in Hb. destruct Hb as (row' & Hrow' & Hb).
      apply descendants_below in Hb. destruct Hb as (jb & sb & Hpb).
      rewrite Forall_forall in Hall, Hlt.
      destruct (Hall row' Hrow') as [Hup' _]. specialize (Hlt row' Hrow').
      unfold comesBefore. rewrite Hpa, Hpb, !pathOf_row, Hup, Hup'.
      rewrite <- !app_assoc. simpl.
      now apply precedes_earlier_sibling.
Qed.

(** The data cells of one block come in document order. *)
Lemma block_cells_order (row : ElementRef) :
  inDocumentOrder (dataCells (block row)).
Proof.
  apply (dataCells_order (ancestors row) (block row) (index (self row))).
  apply block_ascending.
Qed.

Lemma dataCells_app (rows1 rows2 : list ElementRef) :
  dataCells (rows1 ++ rows2) = dataCells rows1 ++ dataCells rows2.
Proof. unfold dataCells. now rewrite map_app, concat_app. Qed.

Lemma dataCells_blocks (rows : list ElementRef) :
  dataCells (flat_map block rows)
  = flat_map (fun row => dataCells (block row)) rows.
Proof.
  induction rows as [|row rows IH]; [reflexivity|].
  cbn [flat_map]. now rewrite dataCells_app, IH.
Qed.

(* ================================================================== *)
(** ** Elements and their document

    The elements reached from an element of a document by
    [parentElement], [nextElementSibling] and [querySelectorAll] are
    elements of that same document. *)

Lemma elementsAt_placed (n : Node) :
  forall up l r e,
    In e (elementsAt up l n r) ->
    documentOf e = plug n l r up /\ (rooted l r up -> wellPlaced e).
Proof.
  induction n as [t|d cs IHcs] using Node_nested_ind; intros up l r e.
  - intros [].
  - rewrite elementsAt_Element.
    set (me := {| here := d; before := l; after := r |}).
    intros [<-|He]; [split; [reflexivity|auto]|].
    assert (Hin : forall l' cs',
               Forall (fun n => forall up l r e,
                           In e (elementsAt up l n r) ->
                           documentOf e = plug n l r up
                           /\ (rooted l r up -> wellPlaced e)) cs' ->
               In e (elementsIn (me :: up) l' cs') ->
               documentOf e = plug (Element d (rev l' ++ cs')) l r up
               /\ (rooted l r up -> wellPlaced e)).
    { intros l' cs' Hall. revert l'.
      induction Hall as [|c cs' Hc _ IH]; intros l'; simpl; [intros []|].
      rewrite in_app_iff. intros [Hin|Hin].
      - apply Hc in Hin. exact Hin.
      - apply IH in Hin. simpl in Hin. now rewrite <- app_assoc in Hin. }
    apply (Hin [] cs IHcs He).
Qed.

Lemma allElements_placed (document : Document) (e : ElementRef) :
  In e (allElements document) -> documentOf e = document /\ wellPlaced e.
Proof.
  intros He. apply elementsAt_placed in He. destruct He as [Hdoc Hwell].
  split; [assumption|]. apply Hwell. now split.
Qed.

Lemma elementsIn_middle (up : list Position) (n : Node) (r : list Node)
      (e : ElementRef) :
  forall pre l0,
    In e (elementsAt up (rev pre ++ l0) n r) ->
    In e (elementsIn up l0 (pre ++ n :: r)).
Proof.
  induction pre as [|c pre IH]; intros l0 He; simpl.
  - apply in_app_iff. now left.
  - apply in_app_iff. right. apply IH.
    simpl in He. now rewrite <- app_assoc in He.
Qed.

Lemma elementsAt_in_plug (up : list Position) :
  forall n l r e,
    rooted l r up ->
    In e (elementsAt up l n r) ->
    In e (allElements (plug n l r up)).
Proof.
  induction up as [|p up IH]; intros n l r e Hroot He; simpl.
  - destruct Hroot as [-> ->]. exact He.
  - apply IH; [exact Hroot|].
    rewrite elementsAt_Element. right. destruct p as [d lp rp]. simpl.
    apply elementsIn_middle. now rewrite rev_involutive, app_nil_r.
Qed.

(** A well placed element is an element of its document. *)
Lemma element_of_its_document (e : ElementRef) :
  wellPlaced e -> In e (allElements (documentOf e)).
Proof.
  intros Hwell. apply elementsAt_in_plug; [exact Hwell|].
  destruct e as [cs [d l r] up]. unfold asNode. simpl. now left.
Qed.

Lemma parentElement_placed (e p : ElementRef) :
  parentElement e = Some p ->
  documentOf p = documentOf e /\ (wellPlaced e -> wellPlaced p).
Proof.
  unfold parentElement, documentOf, wellPlaced.
  destruct (ancestors e) as [|q up]; [discriminate|].
  intros [= <-]. simpl. auto.
Qed.

Lemma firstElement_placed (up : list Position) (r : list Node) :
  forall l n,
    firstElement up l r = Some n ->
    ancestors n = up
    /\ rev (before (self n)) ++ asNode n :: after (self n) = rev l ++ r.
Proof.
  induction r as [|c r IH]; intros l n; simpl; [discriminate|].
  destruct c as [t|d cs].
  - intros H. apply IH in H. destruct H as [Hup Heq]. split; [assumption|].
    rewrite Heq. simpl. now rewrite <- app_assoc.
  - intros [= <-]. split; reflexivity.
Qed.

Lemma nextElementSibling_placed (e n : ElementRef) :
  nextElementSibling e = Some n ->
  wellPlaced e ->
  documentOf n = documentOf e /\ wellPlaced n.
Proof.
  unfold nextElementSibling, documentOf, wellPlaced. intros Hnext Hwell.
  destruct (ancestors e) as [|p up] eqn:Hanc.
  - destruct Hwell as [_ Hafter]. rewrite Hafter in Hnext. discriminate.
  - apply firstElement_placed in Hnext. destruct Hnext as [Hup Heq].
    rewrite Hup. simpl. simpl in Heq. rewrite <- app_assoc in Heq.
    simpl in Heq. rewrite Heq. auto.
Qed.

(** Navigation stays inside the document. *)
Lemma navigation_in_document (document : Document) (e : ElementRef) :
  In e (allElements document) ->
  (forall p, parentElement e = Some p -> In p (allElements document))
  /\ (forall n, nextElementSibling e = Some n -> In n (allElements document))
  /\ (forall c, In c (descendants e) -> In c (allElements document)).
Proof.
  intros He. apply allElements_placed in He. destruct He as [Hdoc Hwell].
  split; [|split].
  - intros p Hp. apply parentElement_placed in Hp. destruct Hp as [Hd Hw].
    rewrite <- Hdoc, <- Hd. apply element_of_its_document. auto.
  - intros n Hn. apply nextElementSibling_placed in Hn; [|assumption].
    destruct Hn as [Hd Hw].
    rewrite <- Hdoc, <- Hd. now apply element_of_its_document.
  - intros c Hc. unfold descendants in Hc.
    assert (Hplaced : documentOf c = documentOf e /\ wellPlaced c).
    { clear Hdoc.
      assert (Hgen : forall cs l,
                 In c (elementsIn (self e :: ancestors e) l cs) ->
                 documentOf c
                 = plug (Element (here (self e)) (rev l ++ cs))
                        (before (self e)) (after (self e)) (ancestors e)
                   /\ wellPlaced c).
      { induction cs as [|k cs IH]; intros l; simpl; [intros []|].
        rewrite in_app_iff. intros [Hin|Hin].
        - apply elementsAt_placed in Hin. destruct Hin as [Hd Hw].
          split; [exact Hd|]. apply Hw. exact Hwell.
        - apply IH in Hin. simpl in Hin. now rewrite <- app_assoc in Hin. }
      apply Hgen in Hc. exact Hc. }
    destruct Hplaced as [Hd Hw].
    rewrite <- Hdoc, <- Hd. now apply element_of_its_document.
Qed.

Lemma nextRows_in_document (document : Document) (fuel : nat) :
  forall current r,
    (forall c, current = Some c -> In c (allElements document)) ->
    In r (nextRows fuel current) -> In r (allElements document).
Proof.
  induction fuel as [|fuel IH]; intros current r Hcur; simpl; [intros []|].
  destruct current as [c|]; [|intros []].
  destruct (classContains c "mergedtoprow"); [intros []|].
  intros [<-|Hr]; [now apply Hcur|].
  apply (IH (nextElementSibling c)); [|assumption].
  intros n Hn.
  exact (proj1 (proj2 (navigation_in_document document c (Hcur c eq_refl)))
           n Hn).
Qed.

Lemma block_in_document (document : Document) (row r : ElementRef) :
  In row (allElements document) -> In r (block row) ->
  In r (allElements document).
Proof.
  intros Hrow [<-|Hr]; [assumption|].
  revert Hr. apply nextRows_in_document.
  intros n Hn.
  exact (proj1 (proj2 (navigation_in_document document row Hrow)) n Hn).
Qed.

Lemma headerRows_in_document (document : Document) (label : jsstring)
      (rows : list ElementRef) :
  map parentElement (labelHeaders document label) = map Some rows ->
  forall r, In r (flat_map block rows) -> In r (allElements document).
Proof.
  intros Hparents r Hr. apply in_flat_map in Hr. destruct Hr as (row & Hrow & Hr).
  apply (block_in_document document row); [|assumption].
  assert (Hin : In (Some row) (map parentElement (labelHeaders document label))).
  { rewrite Hparents. now apply in_map. }
  apply in_map_iff in Hin. destruct Hin as (th & Hth & Hin).
  unfold labelHeaders, querySelectorAll in Hin.
  apply filter_In in Hin. destruct Hin as [Hin _].
  apply filter_In in Hin. destruct Hin as [Hin _].
  exact (proj1 (navigation_in_document document th Hin) row Hth).
Qed.

(** C4: the header cells kept are those selected by ['.mergedtoprow th']
    whose text has the label as a substring of code units; each has a
    parent row, the rows collected are the blocks of those parent rows in
    order, all of them elements of the document, and the block of a row is
    the row itself followed by its following element siblings up to, and
    excluding, the first one of class [mergedtoprow] (all of them when
    there is none). *)
Theorem label_blocks (document : Document) (label : jsstring) :
  (forall th,
      In th (labelHeaders document label) <->
      In th (querySelectorAll document sectionHeaders)
      /\ exists pre post, textContent th = pre ++ label ++ post)
  /\ (exists rows,
         map parentElement (labelHeaders document label) = map Some rows
         /\ labelRows document label = Normal (flat_map block rows)
         /\ forall r, In r (flat_map block rows) ->
                      In r (allElements document))
  /\ (forall row,
         block row
         = row :: takeWhile (fun r => negb (startsSection r))
                            (followingSiblings row)).
Proof.
  split; [|split].
  - intros th. unfold labelHeaders. rewrite filter_In, includes_spec. tauto.
  - destruct (labelRows_blocks document label) as (rows & Hparents & Hrows).
    exists rows. repeat split; [assumption..|].
    now apply (headerRows_in_document document label).
  - apply block_spec.
Qed.

(* ================================================================== *)
(** ** The labelled value *)

Lemma valueOfCells_first (regex : jsstring -> bool) (cells : list ElementRef) :
  valueOfCells (filter (fun td => regex (cellText td)) cells)
  = match find (fun td => regex (cellText td)) cells with
    | Some td => valueOfText (cellText td)
    | None => None
    end.
Proof.
  rewrite <- hd_error_filter.
  destruct (filter _ cells) as [|v vs]; [reflexivity|].
  unfold valueOfCells, valueOfText. simpl.
  now destruct (truthy (cellText v)).
Qed.

Lemma getValueByLabel_firstMatch (document : Document) (label : jsstring)
      (regex : jsstring -> bool) :
  getValueByLabel document label regex
  = Normal match firstMatch document label regex with
           | Some td => valueOfText (cellText td)
           | None => None
           end.
Proof.
  unfold getValueByLabel, firstMatch.
  destruct (labelRows_blocks document label) as (rows & _ & ->).
  now rewrite valueOfCells_first.
Qed.

(** C3 as stated fails: on [nestedHeaderPage] the flattened sequence of
    data cells is not in document order. The cell chosen, the first of
    the sequence, reads "200"; the cell reading "100" matches the
    population pattern as well, stands before the chosen one in the
    document and is the second of the sequence. The population returned
    is "200". *)
Lemma flattened_cells_not_in_document_order :
  exists rows chosen earlier rest,
    labelRows MoreFixtures.nestedHeaderPage (lit "Population") = Normal rows
    /\ dataCells rows = chosen :: earlier :: rest
    /\ ~ inDocumentOrder (dataCells rows)
    /\ comesBefore earlier chosen
    /\ cellText earlier = lit "100"
    /\ test populationRegex (cellText earlier) = true
    /\ cellText chosen = lit "200"
    /\ getPopulation MoreFixtures.nestedHeaderPage
       = Normal (Some (lit "200"))
    /\ valueOfText (cellText earlier) = Some (lit "100").
Proof.
  destruct (labelRows MoreFixtures.nestedHeaderPage (lit "Population"))
    as [rows|] eqn:Hrows; [|vm_compute in Hrows; discriminate].
  destruct (dataCells rows) as [|chosen [|earlier rest]] eqn:Hcells;
    [vm_compute in Hrows; injection Hrows as <-;
     vm_compute in Hcells; discriminate
    |vm_compute in Hrows; injection Hrows as <-;
     vm_compute in Hcells; discriminate|].
  exists rows, chosen, earlier, rest.
  split; [reflexivity|]. split; [exact Hcells|].
  rewrite Hcells.
  vm_compute in Hrows. injection Hrows as <-.
  vm_compute in Hcells. injection Hcells as <- <- <-.
  split.
  { intros H. apply StronglySorted_inv in H. destruct H as [_ H].
    apply Forall_inv in H. vm_compute in H. discriminate. }
  repeat split; vm_compute; reflexivity.
Qed.

(** C3 as amended: the header cells are taken in document order, the
    sequence of data cells is the concatenation, in the order of their
    headers, of the cells of their blocks, and the cells of one block come
    in document order, so that the whole sequence is in document order
    when one header matches the label; when this sequence is
    [pre ++ td :: post], no cell of [pre] matches the pattern and [td]
    does, the value returned is the one derived from the trimmed text of
    [td], whatever [post] holds. *)
Theorem first_matching_cell (document : Document) (label : jsstring)
        (regex : jsstring -> bool) :
  inDocumentOrder (labelHeaders document label)
  /\ (exists headerRows,
         map parentElement (labelHeaders document label) = map Some headerRows
         /\ labelRows document label = Normal (flat_map block headerRows)
         /\ dataCells (flat_map block headerRows)
            = flat_map (fun row => dataCells (block row)) headerRows
         /\ Forall (fun row => inDocumentOrder (dataCells (block row)))
                   headerRows)
  /\ (forall th,
         labelHeaders document label = [th] ->
         exists row,
           parentElement th = Some row
           /\ labelRows document label = Normal (block row)
           /\ inDocumentOrder (dataCells (block row)))
  /\ (forall rows pre td post,
         labelRows document label = Normal rows ->
         dataCells rows = pre ++ td :: post ->
         (forall c, In c pre -> regex (cellText c) = false) ->
         regex (cellText td) = true ->
         getValueByLabel document label regex
         = Normal (valueOfText (cellText td))).
Proof.
  split; [|split; [|split]].
  - apply StronglySorted_filter, querySelectorAll_order.
  - destruct (labelRows_blocks document label) as (rows & Hparents & Hrows).
    exists rows. repeat split; auto using dataCells_blocks.
    apply Forall_forall. intros row _. apply block_cells_order.
  - intros th Hth.
    destruct (labelRows_blocks document label) as (rows & Hparents & Hrows).
    rewrite Hth in Hparents.
    destruct rows as [|row [|row' rows]]; try discriminate.
    injection Hparents as Hparent. exists row.
    split; [assumption|]. split; [|apply block_cells_order].
    rewrite Hrows. simpl. now rewrite app_nil_r.
  - intros rows pre td post Hrows Hcells Hpre Htd.
    rewrite getValueByLabel_firstMatch. unfold firstMatch.
    rewrite Hrows, Hcells.
    now rewrite (find_first (fun c => regex (cellText c)) pre td post Hpre Htd).
Qed.

Lemma first_matching_cell_witness :
  exists rows td post later,
    labelRows Fixture.berlinPage (lit "Population") = Normal rows
    /\ dataCells rows = td :: post
    /\ cellText td = lit "83,166,711 (2021 estimate)"
    /\ In later post
    /\ test populationRegex (cellText later) = true
    /\ getValueByLabel Fixture.berlinPage (lit "Population")
                       (test populationRegex)
       = Normal (Some (lit "83166711")).
Proof.
  destruct (labelRows Fixture.berlinPage (lit "Population")) as [rows|]
    eqn:Hrows; [|vm_compute in Hrows; discriminate].
  destruct (dataCells rows) as [|td post] eqn:Hcells.
  { vm_compute in Hrows. injection Hrows as <-.
    vm_compute in Hcells. discriminate. }
  assert (Htext : cellText td = lit "83,166,711 (2021 estimate)").
  { vm_compute in Hrows. injection Hrows as <-.
    vm_compute in Hcells. injection Hcells as <- _. reflexivity. }
  destruct post as [|later post'].
  { vm_compute in Hrows. injection Hrows as <-.
    vm_compute in Hcells. discriminate. }
  exists rows, td, (later :: post'), later.
  split; [reflexivity|]. split; [exact Hcells|]. split; [exact Htext|].
  split; [now left|]. split.
  { vm_compute in Hrows. injection Hrows as <-.
    vm_compute in Hcells. injection Hcells as _ <- _. reflexivity. }
  rewrite (proj2 (proj2 (proj2 (first_matching_cell Fixture.berlinPage
                                  (lit "Population") (test populationRegex))))
             rows [] td (later :: post')
             Hrows Hcells (fun c (H : In c []) => match H with end)).
  - rewrite Htext. reflexivity.
  - rewrite Htext. reflexivity.
Defined.

(** C7: when the label is a substring of the text of no header cell
    selected by ['.mergedtoprow th'], the extraction returns absent. *)
Theorem label_absent (document : Document) (label : jsstring)
        (regex : jsstring -> bool) :
  (forall th pre post,
      In th (querySelectorAll document sectionHeaders) ->
      textContent th <> pre ++ label ++ post) ->
  getValueByLabel document label regex = Normal None.
Proof.
  intros H.
  assert (Hnil : labelHeaders document label = []).
  { unfold labelHeaders. apply filter_nil_iff. intros th Hth.
    destruct (includes (textContent th) label) eqn:Hinc; [|reflexivity].
    apply includes_spec in Hinc. destruct Hinc as (pre & post & Heq).
    now destruct (H th pre post Hth). }
  unfold getValueByLabel, labelRows. now rewrite Hnil.
Qed.

Lemma label_absent_witness :
  getValueByLabel Fixture.parisPage (lit "Area") (test areaRegex)
  = Normal None.
Proof.
  apply label_absent. intros th pre post Hin Heq.
  assert (Hinc : includes (textContent th) (lit "Area") = true).
  { apply includes_spec. now exists pre, post. }
  vm_compute in Hin. destruct Hin as [<-|[]].
  vm_compute in Hinc. discriminate.
Defined.

Lemma no_match_absent (document : Document) (label : jsstring)
      (regex : jsstring -> bool) :
  firstMatch document label regex = None ->
  getValueByLabel document label regex = Normal None.
Proof.
  intros H. now rewrite getValueByLabel_firstMatch, H.
Qed.

Lemma truthy_nonempty (text : jsstring) : text <> [] -> truthy text = true.
Proof. destruct text; [congruence|reflexivity]. Qed.

(** C1, where the code departs from the claim: when the first matching
    cell has a non-empty trimmed text from which [parseFloat] reads no
    number, the extraction returns the string ["NaN"], not absent. *)
Theorem parse_failure_returns_NaN (document : Document) (label : jsstring)
        (regex : jsstring -> bool) (td : ElementRef) :
  firstMatch document label regex = Some td ->
  cellText td <> [] ->
  parseFloat (removeCommas (cellText td)) = S754_nan ->
  getValueByLabel document label regex = Normal (Some (lit "NaN")).
Proof.
  intros Hfirst Hne Hnan.
  rewrite getValueByLabel_firstMatch, Hfirst. unfold valueOfText.
  now rewrite (truthy_nonempty _ Hne), Hnan.
Qed.

Lemma parse_failure_returns_NaN_witness :
  exists td,
    firstMatch Fixture.placeholderPage (lit "Population") (test populationRegex)
    = Some td
    /\ cellText td = lit ","
    /\ getPopulation Fixture.placeholderPage = Normal (Some (lit "NaN")).
Proof.
  destruct (firstMatch Fixture.placeholderPage (lit "Population")
                       (test populationRegex)) as [td|] eqn:Hfirst;
    [|vm_compute in Hfirst; discriminate].
  assert (Htext : cellText td = lit ",").
  { vm_compute in Hfirst. injection Hfirst as <-. reflexivity. }
  exists td. split; [reflexivity|]. split; [assumption|].
  apply (parse_failure_returns_NaN Fixture.placeholderPage (lit "Population")
           (test populationRegex) td Hfirst).
  - rewrite Htext. discriminate.
  - rewrite Htext. reflexivity.
Defined.

(** C5: the two patterns accept the three cell texts of the specification,
    and a document whose first matching cell has one of these texts yields
    the stated digits. *)
Theorem specified_cell_texts (document : Document) :
  (test areaRegex (lit "357,021 km2 (137,847 sq mi)") = true
   /\ test populationRegex (lit "83,166,711 (2021 estimate)") = true
   /\ test populationRegex (lit "1,234,567") = true)
  /\ (forall td,
         firstMatch document (lit "Area") (test areaRegex) = Some td ->
         cellText td = lit "357,021 km2 (137,847 sq mi)" ->
         getArea document = Normal (Some (lit "357021")))
  /\ (forall td,
         firstMatch document (lit "Population") (test populationRegex)
         = Some td ->
         cellText td = lit "83,166,711 (2021 estimate)" ->
         getPopulation document = Normal (Some (lit "83166711")))
  /\ (forall td,
         firstMatch document (lit "Population") (test populationRegex)
         = Some td ->
         cellText td = lit "1,234,567" ->
         getPopulation document = Normal (Some (lit "1234567"))).
Proof.
  split; [repeat split; vm_compute; reflexivity|].
  unfold getArea, getPopulation.
  repeat split; intros td Hfirst Htext;
    rewrite getValueByLabel_firstMatch, Hfirst, Htext; vm_compute; reflexivity.
Qed.

Lemma specified_cell_texts_witness :
  getArea Fixture.berlinPage = Normal (Some (lit "357021"))
  /\ getPopulation Fixture.berlinPage = Normal (Some (lit "83166711"))
  /\ getPopulation Fixture.parisPage = Normal (Some (lit "1234567")).
Proof.
  split; [|split].
  - destruct (firstMatch Fixture.berlinPage (lit "Area") (test areaRegex))
      as [td|] eqn:Hfirst; [|vm_compute in Hfirst; discriminate].
    apply (proj1 (proj2 (specified_cell_texts Fixture.berlinPage)) td Hfirst).
    vm_compute in Hfirst. injection Hfirst as <-. reflexivity.
  - destruct (firstMatch Fixture.berlinPage (lit "Population")
                         (test populationRegex))
      as [td|] eqn:Hfirst; [|vm_compute in Hfirst; discriminate].
    apply (proj1 (proj2 (proj2 (specified_cell_texts Fixture.berlinPage)))
             td Hfirst).
    vm_compute in Hfirst. injection Hfirst as <-. reflexivity.
  - destruct (firstMatch Fixture.parisPage (lit "Population")
                         (test populationRegex))
      as [td|] eqn:Hfirst; [|vm_compute in Hfirst; discriminate].
    apply (proj2 (proj2 (proj2 (specified_cell_texts Fixture.parisPage)))
             td Hfirst).
    vm_compute in Hfirst. injection Hfirst as <-. reflexivity.
Defined.

(* ================================================================== *)
(** ** The capital link *)

Lemma find_notNull (links : list (option ElementRef)) :
  match find notNull links with Some link => link | None => None end
  = match find notNull links with Some (Some e) => Some e | _ => None end.
Proof.
  destruct (find notNull links) as [[e|]|] eqn:H; reflexivity.
Qed.

Lemma capitalCityLink_first (document : Document)
      (rows1 rows2 : list ElementRef) (row link : ElementRef) :
  capitalRows document = rows1 ++ row :: rows2 ->
  (forall r, In r rows1 -> querySelectorIn r infoboxDataLink = None) ->
  querySelectorIn row infoboxDataLink = Some link ->
  capitalCityLink document = Some link.
Proof.
  intros Hrows Hnone Hlink. unfold capitalCityLink.
  rewrite Hrows, map_app. simpl. rewrite Hlink.
  rewrite (find_first notNull
             (map (fun tr => querySelectorIn tr infoboxDataLink) rows1)
             (Some link)); [reflexivity| |reflexivity].
  intros y Hy. apply in_map_iff in Hy. destruct Hy as (r & <- & Hr).
  now rewrite (Hnone r Hr).
Qed.

Lemma capitalCityLink_none (document : Document) :
  (forall r, In r (capitalRows document) ->
             querySelectorIn r infoboxDataLink = None) ->
  capitalCityLink document = None.
Proof.
  intros Hnone. unfold capitalCityLink.
  destruct (find notNull _) as [link|] eqn:Hfind; [|reflexivity].
  apply find_some in Hfind. destruct Hfind as [Hin Hnn].
  apply in_map_iff in Hin. destruct Hin as (r & <- & Hr).
  rewrite (Hnone r Hr) in Hnn. discriminate.
Qed.

(** C2 as amended: the link is the first anchor selected by
    ['.infobox-data a'] inside the first row, among the rows whose text
    contains "Capital", that has such an anchor; the result is absent
    exactly when no such row has one, in particular when no row contains
    "Capital". *)
Theorem capital_link_first_row_with_anchor (document : Document) :
  (forall rows1 row rows2 link,
      capitalRows document = rows1 ++ row :: rows2 ->
      (forall r, In r rows1 -> querySelectorIn r infoboxDataLink = None) ->
      querySelectorIn row infoboxDataLink = Some link ->
      capitalCity document
      = Some {| cityName := innerText (here (self link));
                cityUrl := href (here (self link)) |})
  /\ ((forall r, In r (capitalRows document) ->
                 querySelectorIn r infoboxDataLink = None) <->
      capitalCity document = None)
  /\ (capitalRows document = [] -> capitalCity document = None).
Proof.
  split; [|split].
  - intros rows1 row rows2 link Hrows Hnone Hlink. unfold capitalCity.
    now rewrite (capitalCityLink_first document rows1 rows2 row link
                   Hrows Hnone Hlink).
  - split.
    + intros Hnone. unfold capitalCity.
      now rewrite (capitalCityLink_none document Hnone).
    + unfold capitalCity, capitalCityLink. intros Hcap r Hr.
      destruct (querySelectorIn r infoboxDataLink) as [a|] eqn:Ha;
        [|reflexivity].
      destruct (find notNull _) as [[link|]|] eqn:Hfind; [discriminate| |].
      * apply find_some in Hfind. destruct Hfind as [_ Hnn]. discriminate.
      * assert (Hall := proj1 (find_none_iff notNull _) Hfind (Some a)).
        rewrite <- Ha in Hall. specialize (Hall (in_map _ _ _ Hr)).
        rewrite Ha in Hall. discriminate.
  - intros Hnil. unfold capitalCity, capitalCityLink. now rewrite Hnil.
Qed.

Lemma capital_link_first_row_with_anchor_witness :
  capitalCity (Fixture.countryPage "Berlin" "https://w/Berlin")
  = Some {| cityName := lit "Berlin"; cityUrl := lit "https://w/Berlin" |}
  /\ capitalCity Fixture.noCapitalPage = None.
Proof.
  split.
  - set (document := Fixture.countryPage "Berlin" "https://w/Berlin").
    destruct (capitalRows document) as [|row rows2] eqn:Hrows;
      [vm_compute in Hrows; discriminate|].
    destruct (querySelectorIn row infoboxDataLink) as [link|] eqn:Hlink;
      [|vm_compute in Hrows; injection Hrows as <- _;
        vm_compute in Hlink; discriminate].
    assert (Hcity := proj1 (capital_link_first_row_with_anchor document)
                       [] row rows2 link Hrows (fun r (H : In r []) =>
                                                  match H with end) Hlink).
    rewrite Hcity. f_equal.
    vm_compute in Hrows. injection Hrows as <- _.
    vm_compute in Hlink. injection Hlink as <-. reflexivity.
  - apply (proj2 (proj2 (capital_link_first_row_with_anchor
                           Fixture.noCapitalPage))).
    reflexivity.
Defined.

(** C2 as stated fails: on this page the first row containing "Capital"
    holds no anchor at all, yet a link is returned, that of a later row. *)
Lemma capital_link_not_first_row :
  exists row rest,
    capitalRows Fixture.twoCapitalRowsPage = row :: rest
    /\ querySelectorAllIn row (Simple (tag "a")) = []
    /\ querySelectorIn row infoboxDataLink = None
    /\ capitalCity Fixture.twoCapitalRowsPage
       = Some {| cityName := lit "Elsewhere";
                 cityUrl := lit "https://w/Elsewhere" |}.
Proof.
  destruct (capitalRows Fixture.twoCapitalRowsPage) as [|row rest] eqn:Hrows;
    [vm_compute in Hrows; discriminate|].
  exists row, rest. split; [reflexivity|].
  vm_compute in Hrows. injection Hrows as <- <-.
  repeat split; vm_compute; reflexivity.
Qed.

(* ================================================================== *)
(** ** The traversal *)

Lemma capitalCityDetails_normal (d : Document) :
  exists a p,
    getArea d = Normal a /\ getPopulation d = Normal p
    /\ capitalCityDetails d
       = Normal {| d_flagIconPath := flagIconPathOf d;
                   d_area := a; d_population := p |}.
Proof.
  unfold capitalCityDetails, getArea, getPopulation.
  rewrite !getValueByLabel_firstMatch. eauto.
Qed.

Section Traversal.
Variable web : Web.

Lemma scrapeCityDetails_null (c : Country) (s : State) :
  scrapeCityDetails web None c s
  = match page s with
    | None => Throw (Error "Page is not initialized.")
    | Some _ => Normal (None, s)
    end.
Proof. unfold scrapeCityDetails. now destruct (page s). Qed.

Lemma scrapeCityDetails_city (city : City) (c : Country) (s : State) :
  scrapeCityDetails web (Some city) c s
  = match page s with
    | None => Throw (Error "Page is not initialized.")
    | Some _ =>
        match web (cityUrl city) with
        | None => Throw NavigationError
        | Some d =>
            match capitalCityDetails d with
            | Throw e => Throw e
            | Normal details =>
                Normal (Some [recordOf city c details], showing s d)
            end
        end
    end.
Proof.
  unfold scrapeCityDetails, Scraper.bind, goto, evaluate, Scraper.ret.
  destruct (page s) as [shown|]; [|reflexivity].
  destruct (web (cityUrl city)) as [doc|]; [|reflexivity]. simpl.
  destruct (capitalCityDetails doc); reflexivity.
Qed.

Lemma visitCountry_eq (acc : list CityDetails) (c : Country) (s : State) :
  visitCountry web acc c s
  = match page s with
    | None => Throw TypeError
    | Some _ =>
        match web (countryUrl c) with
        | None => Throw NavigationError
        | Some d =>
            match capitalCity d with
            | None => Normal (acc, showing s d)
            | Some city =>
                match web (cityUrl city) with
                | None => Throw NavigationError
                | Some d' =>
                    match capitalCityDetails d' with
                    | Throw e => Throw e
                    | Normal details =>
                        Normal (acc ++ [recordOf city c details],
                                showing s d')
                    end
                end
            end
        end
    end.
Proof.
  unfold visitCountry, Scraper.bind, goto, evaluate, Scraper.ret.
  destruct (page s) as [shown|]; [|reflexivity].
  destruct (web (countryUrl c)) as [doc|]; [|reflexivity]. simpl.
  destruct (capitalCity doc) as [city|]; [|reflexivity].
  rewrite scrapeCityDetails_city. simpl.
  destruct (web (cityUrl city)) as [doc'|]; [|reflexivity].
  destruct (capitalCityDetails doc'); reflexivity.
Qed.

(** One iteration either appends one record for the country, when its
    page yields a capital link, or leaves the list as it is. *)
Lemma visitCountry_result (acc out : list CityDetails) (c : Country)
      (s s' : State) :
  visitCountry web acc c s = Normal (out, s') ->
  page s' <> None
  /\ ((hasCapitalLink web c = true
       /\ exists r, out = acc ++ [r] /\ country r = Some (countryName c))
      \/ (hasCapitalLink web c = false /\ out = acc)).
Proof.
  rewrite visitCountry_eq. unfold hasCapitalLink.
  destruct (page s) as [shown|]; [|discriminate].
  destruct (web (countryUrl c)) as [d|]; [|discriminate].
  destruct (capitalCity d) as [city|].
  - destruct (web (cityUrl city)) as [d'|]; [|discriminate].
    destruct (capitalCityDetails d') as [details|]; [|discriminate].
    intros [= <- <-]. split; [discriminate|]. left. split; [reflexivity|].
    now exists (recordOf city c details).
  - intros [= <- <-]. split; [discriminate|]. now right.
Qed.

Lemma forCountries_result (countries : list Country) :
  forall (acc out : list CityDetails) (s s' : State),
    forCountries web countries acc s = Normal (out, s') ->
    exists records,
      out = acc ++ records
      /\ map country records
         = map (fun c => Some (countryName c))
               (filter (hasCapitalLink web) countries).
Proof.
  induction countries as [|c rest IH]; intros acc out s s'; simpl.
  - intros [= <- <-]. exists []. now rewrite app_nil_r.
  - unfold Scraper.bind at 1.
    destruct (visitCountry web acc c s) as [[l s1]|] eqn:Hvisit;
      [|discriminate].
    intros Hrest. apply IH in Hrest. destruct Hrest as (records & -> & Hmap).
    apply visitCountry_result in Hvisit.
    destruct Hvisit as [_ [[Hcap (r & -> & Hr)]|[Hcap ->]]]; rewrite Hcap.
    + exists (r :: records). rewrite <- app_assoc. simpl.
      now rewrite Hr, Hmap.
    + now exists records.
Qed.

Lemma forCountries_skip (c : Country) (rest : list Country)
      (acc : list CityDetails) (s : State) (d : Document) :
  page s <> None -> web (countryUrl c) = Some d -> capitalCity d = None ->
  forCountries web (c :: rest) acc s = forCountries web rest acc (showing s d).
Proof.
  intros Hpage Hweb Hcap. simpl. unfold Scraper.bind at 1.
  rewrite visitCountry_eq, Hweb, Hcap.
  destruct (page s); [reflexivity|congruence].
Qed.

Lemma scrapeCountries_eq (s : State) :
  scrapeCountries web s
  = match page s with
    | None => Throw (Error "Page is not initialized.")
    | Some d => forCountries web (countriesList d) [] s
    end.
Proof.
  unfold scrapeCountries, Scraper.bind, evaluate.
  now destruct (page s).
Qed.

End Traversal.

(** C6: a run of [scrapeCountries] that returns has one record for each
    country of the list page whose own page yields a capital link, in the
    order of the list, so at most as many records as countries; and an
    iteration whose country page yields no capital link goes on to the
    remaining countries with the list unchanged, raising nothing. *)
Theorem records_only_for_capitals (web : Web) :
  (forall s out s',
      scrapeCountries web s = Normal (out, s') ->
      exists d,
        page s = Some d
        /\ map country out
           = map (fun c => Some (countryName c))
                 (filter (hasCapitalLink web) (countriesList d))
        /\ List.length out
           = List.length (filter (hasCapitalLink web) (countriesList d))
        /\ List.length out <= List.length (countriesList d))
  /\ (forall c rest acc s d,
         page s <> None ->
         web (countryUrl c) = Some d ->
         capitalCity d = None ->
         forCountries web (c :: rest) acc s
         = forCountries web rest acc (showing s d)).
Proof.
  split.
  - intros s out s'. rewrite scrapeCountries_eq.
    destruct (page s) as [d|]; [|discriminate].
    intros H. apply forCountries_result in H.
    destruct H as (records & -> & Hmap). simpl. exists d.
    assert (Hlen : List.length records
                   = List.length (filter (hasCapitalLink web)
                                         (countriesList d))).
    { rewrite <- (length_map country records), Hmap. apply length_map. }
    repeat split; auto.
    rewrite Hlen. apply filter_length_le.
  - intros c rest acc s d. apply forCountries_skip.
Qed.

Lemma records_only_for_capitals_witness :
  exists out s',
    scrapeCountries Fixture.fixtureWeb (showing newScraper Fixture.listPage)
    = Normal (out, s')
    /\ List.length out = 2
    /\ List.length (countriesList Fixture.listPage) = 3
    /\ map country out = [Some (lit "Germany"); Some (lit "France")].
Proof.
  destruct (scrapeCountries Fixture.fixtureWeb
              (showing newScraper Fixture.listPage)) as [[out s']|] eqn:Hrun;
    [|vm_compute in Hrun; discriminate].
  exists out, s'. split; [reflexivity|].
  destruct (proj1 (records_only_for_capitals Fixture.fixtureWeb) _ _ _ Hrun)
    as (d & Hd & Hmap & Hlen & _).
  injection Hd as <-.
  rewrite Hlen, Hmap. repeat split; vm_compute; reflexivity.
Defined.

(** C9: with no page, [scrapeCountries] and [scrapeCityDetails] throw
    "Page is not initialized." and return nothing; the error passes
    through whatever the caller would do next. *)
Theorem uninitialized_page_throws (web : Web) (s : State) :
  page s = None ->
  scrapeCountries web s = Throw (Error "Page is not initialized.")
  /\ (forall capital c,
         scrapeCityDetails web capital c s
         = Throw (Error "Page is not initialized."))
  /\ (forall (B : Type) (k : list CityDetails -> M B),
         Scraper.bind (scrapeCountries web) k s
         = Throw (Error "Page is not initialized.")).
Proof.
  intros Hpage. unfold Scraper.bind, scrapeCountries, scrapeCityDetails.
  rewrite Hpage. auto.
Qed.

Lemma uninitialized_page_throws_witness :
  scrapeCountries Fixture.fixtureWeb newScraper
  = Throw (Error "Page is not initialized.").
Proof.
  exact (proj1 (uninitialized_page_throws Fixture.fixtureWeb newScraper
                  eq_refl)).
Defined.

(** C10: a call of [scrapeCityDetails] that returns gives null when it is
    handed no city and otherwise a list of exactly one record, carrying
    the city and the country; the record is there also when the page of
    the capital has no area, no population and no flag. *)
Theorem one_record_per_capital (web : Web) (capital : option City)
        (c : Country) (s : State) :
  (forall r s',
      scrapeCityDetails web capital c s = Normal (r, s') ->
      match capital with
      | None => r = None
      | Some city =>
          exists details, r = Some [recordOf city c details]
      end)
  /\ (forall city d,
         capital = Some city ->
         page s <> None ->
         web (cityUrl city) = Some d ->
         getArea d = Normal None ->
         getPopulation d = Normal None ->
         flagIconPathOf d = None ->
         scrapeCityDetails web capital c s
         = Normal (Some [ {| name := cityName city;
                             url := cityUrl city;
                             country := Some (countryName c);
                             area := None;
                             population := None;
                             flagIconPath := None |} ],
                   showing s d)).
Proof.
  split.
  - intros r s'. destruct capital as [city|].
    + rewrite scrapeCityDetails_city.
      destruct (page s) as [shown|]; [|discriminate].
      destruct (web (cityUrl city)) as [d|]; [|discriminate].
      destruct (capitalCityDetails d) as [details|]; [|discriminate].
      intros [= <- _]. now exists details.
    + rewrite scrapeCityDetails_null.
      destruct (page s); [|discriminate]. now intros [= <- _].
  - intros city d -> Hpage Hweb Harea Hpop Hflag.
    rewrite scrapeCityDetails_city, Hweb.
    destruct (page s) as [shown|]; [|congruence].
    destruct (capitalCityDetails_normal d) as (a & p & Ha & Hp & ->).
    rewrite Harea in Ha. rewrite Hpop in Hp.
    injection Ha as <-. injection Hp as <-. now rewrite Hflag.
Qed.

Lemma one_record_per_capital_witness :
  scrapeCityDetails
    (fun _ => Some Fixture.emptyPage)
    (Some {| cityName := lit "Stub"; cityUrl := lit "https://w/Stub" |})
    {| countryName := lit "Nowhere"; countryUrl := [] |}
    (showing newScraper Fixture.listPage)
  = Normal (Some [ {| name := lit "Stub";
                      url := lit "https://w/Stub";
                      country := Some (lit "Nowhere");
                      area := None;
                      population := None;
                      flagIconPath := None |} ],
            showing newScraper Fixture.emptyPage).
Proof.
  apply (proj2 (one_record_per_capital
                  (fun _ => Some Fixture.emptyPage)
                  (Some {| cityName := lit "Stub";
                           cityUrl := lit "https://w/Stub" |})
                  {| countryName := lit "Nowhere"; countryUrl := [] |}
                  (showing newScraper Fixture.listPage))
           _ Fixture.emptyPage eq_refl).
  - discriminate.
  - reflexivity.
  - vm_compute. reflexivity.
  - vm_compute. reflexivity.
  - vm_compute. reflexivity.
Defined.

(* ================================================================== *)
(** ** Runs do not depend on what an earlier run left behind *)

Section Determinism.
Variable web : Web.

Lemma agree_output {A : Type} (c1 c2 : completion (A * State)) :
  agree c1 c2 -> output c1 = output c2.
Proof.
  destruct c1 as [[a1 s1]|e1], c2 as [[a2 s2]|e2]; simpl;
    try contradiction; intuition congruence.
Qed.

Lemma readsPageOnly_bind {A B : Type} (m : M A) (k : A -> M B) :
  readsPageOnly m -> (forall a, readsPageOnly (k a)) ->
  readsPageOnly (Scraper.bind m k).
Proof.
  intros Hm Hk s1 s2 Hpage. unfold Scraper.bind.
  specialize (Hm s1 s2 Hpage).
  destruct (m s1) as [[a1 t1]|e1], (m s2) as [[a2 t2]|e2]; simpl in Hm;
    try contradiction.
  - destruct Hm as [<- Ht]. now apply Hk.
  - exact Hm.
Qed.

Lemma readsPageOnly_ret {A : Type} (a : A) : readsPageOnly (Scraper.ret a).
Proof. intros s1 s2 Hpage. simpl. auto. Qed.

Lemma readsPageOnly_visitCountry (acc : list CityDetails) (c : Country) :
  readsPageOnly (visitCountry web acc c).
Proof.
  intros s1 s2 Hpage. rewrite !visitCountry_eq, Hpage.
  destruct (page s2) as [shown|]; simpl; [|reflexivity].
  destruct (web (countryUrl c)) as [d|]; simpl; [|reflexivity].
  destruct (capitalCity d) as [city|]; simpl; [|auto].
  destruct (web (cityUrl city)) as [d'|]; simpl; [|reflexivity].
  destruct (capitalCityDetails d'); simpl; auto.
Qed.

Lemma readsPageOnly_forCountries (countries : list Country) :
  forall acc, readsPageOnly (forCountries web countries acc).
Proof.
  induction countries as [|c rest IH]; intros acc.
  - apply readsPageOnly_ret.
  - apply (readsPageOnly_bind (visitCountry web acc c)
                              (forCountries web rest));
      [apply readsPageOnly_visitCountry|].
    intros l. apply IH.
Qed.

Lemma readsPageOnly_scrapeCountries : readsPageOnly (scrapeCountries web).
Proof.
  intros s1 s2 Hpage. rewrite !scrapeCountries_eq, Hpage.
  destruct (page s2) as [d|] eqn:Hshown; simpl; [|reflexivity].
  apply readsPageOnly_forCountries. congruence.
Qed.

(** [init] leaves the page on the start document whatever it showed. *)
Lemma init_eq (s : State) :
  init web s
  = match web startUrl with
    | None => Throw NavigationError
    | Some d =>
        Normal (tt, {| browser := Some tt; page := Some d |})
    end.
Proof.
  unfold init, goto. simpl.
  destruct (page s), (browser s) as [[]|], (web startUrl); reflexivity.
Qed.

Lemma run_agree (s1 s2 : State) : agree (run web s1) (run web s2).
Proof.
  unfold run, Scraper.bind. rewrite !init_eq.
  destruct (web startUrl) as [d|]; simpl; [|reflexivity].
  now apply readsPageOnly_scrapeCountries.
Qed.

End Determinism.

(** C8: what [scrapeCountries] returns depends on the documents alone,
    those the navigations yield and the one the page shows when it starts;
    a run (initialise, then scrape) starts on the start page, so its
    outcome is the same from any two states of the scraper, and a second
    run, started from the state the first one left, returns the same
    sequence. *)
Theorem run_deterministic (web : Web) :
  (forall s1 s2,
      page s1 = page s2 ->
      output (scrapeCountries web s1) = output (scrapeCountries web s2))
  /\ (forall s1 s2, output (run web s1) = output (run web s2))
  /\ (forall s out s',
         run web s = Normal (out, s') ->
         output (run web s') = Normal out).
Proof.
  assert (H : forall s1 s2, output (run web s1) = output (run web s2)).
  { intros s1 s2. apply agree_output, run_agree. }
  split; [|split; [exact H|]].
  - intros s1 s2 Hpage.
    now apply agree_output, readsPageOnly_scrapeCountries.
  - intros s out s' Hrun. rewrite (H s' s), Hrun. reflexivity.
Qed.

Lemma run_deterministic_witness :
  exists out s',
    run Fixture.fixtureWeb newScraper = Normal (out, s')
    /\ page s' = Some Fixture.parisPage
    /\ output (run Fixture.fixtureWeb s') = Normal out.
Proof.
  destruct (run Fixture.fixtureWeb newScraper) as [[out s']|] eqn:Hrun;
    [|vm_compute in Hrun; discriminate].
  exists out, s'. split; [reflexivity|]. split.
  - vm_compute in Hrun. injection Hrun as _ <-. reflexivity.
  - exact (proj2 (proj2 (run_deterministic Fixture.fixtureWeb))
             newScraper out s' Hrun).
Defined.

(* ================================================================== *)
(** ** The three-country fixture, end to end *)

(** Germany and France yield a record each, Atlantis (no capital link) is
    skipped; the record of Paris lacks the area and has the rest. *)
Example fixture_run :
  output (run Fixture.fixtureWeb newScraper)
  = Normal
      [ {| name := lit "Berlin";
           url := lit "https://w/Berlin";
           country := Some (lit "Germany");
           area := Some (lit "357021");
           population := Some (lit "83166711");
           flagIconPath := Some (lit "https://img/Berlin.svg") |};
        {| name := lit "Paris";
           url := lit "https://w/Paris";
           country := Some (lit "France");
           area := None;
           population := Some (lit "1234567");
           flagIconPath := Some (lit "https://img/Paris.svg") |} ].
Proof. vm_compute. reflexivity. Qed.

(* ================================================================== *)
(** ** Further properties of the traversal *)

Lemma capitalCityDetails_detailsOf (d : Document) :
  capitalCityDetails d = Normal (detailsOf d).
Proof.
  unfold capitalCityDetails, getArea, getPopulation, detailsOf, valueOfMatch.
  now rewrite !getValueByLabel_firstMatch.
Qed.

Lemma forCountries_outcome (web : Web) (countries : list Country) :
  forall acc s,
    page s <> None ->
    output (forCountries web countries acc s)
    = match visitAll web countries with
      | Some records => Normal (acc ++ records)
      | None => Throw NavigationError
      end.
Proof.
  induction countries as [|c rest IH]; intros acc s Hpage.
  - simpl. now rewrite app_nil_r.
  - cbn [forCountries visitAll]. unfold Scraper.bind at 1.
    rewrite visitCountry_eq. unfold visit.
    destruct (page s) as [shown|]; [|congruence].
    destruct (web (countryUrl c)) as [d|]; [|reflexivity].
    destruct (capitalCity d) as [city|].
    + destruct (web (cityUrl city)) as [d'|]; [|reflexivity].
      rewrite capitalCityDetails_detailsOf, IH by discriminate.
      destruct (visitAll web rest); [|reflexivity].
      now rewrite <- app_assoc.
    + rewrite IH by discriminate.
      now destruct (visitAll web rest).
Qed.

Lemma scrapeCountries_visitAll (web : Web) (s : State) (d : Document) :
  page s = Some d ->
  output (scrapeCountries web s)
  = match visitAll web (countriesList d) with
    | Some records => Normal records
    | None => Throw NavigationError
    end.
Proof.
  intros Hpage. rewrite scrapeCountries_eq, Hpage.
  rewrite forCountries_outcome by congruence. reflexivity.
Qed.

Lemma visitAll_unreachable (web : Web) (countries : list Country)
      (c : Country) :
  In c countries -> visit web c = None -> visitAll web countries = None.
Proof.
  induction countries as [|k rest IH]; simpl; [intros []|].
  intros [->|Hin] Hc.
  - now rewrite Hc.
  - rewrite (IH Hin Hc). now destruct (visit web k).
Qed.

(** X1: the callback evaluated on a capital page never throws; it returns
    the flag of the page, the value of the first cell matching the area
    pattern under "Area" and that of the first cell matching the
    population pattern under "Population", each absent when there is
    none. *)
Theorem details_callback_total (d : Document) :
  capitalCityDetails d
  = Normal
      {| d_flagIconPath := flagIconPathOf d;
         d_area :=
           match firstMatch d (lit "Area") (test areaRegex) with
           | Some td => valueOfText (cellText td)
           | None => None
           end;
         d_population :=
           match firstMatch d (lit "Population") (test populationRegex) with
           | Some td => valueOfText (cellText td)
           | None => None
           end |}.
Proof.
  unfold capitalCityDetails, getArea, getPopulation.
  now rewrite !getValueByLabel_firstMatch.
Qed.

(** X2: from a page showing the list document, [scrapeCountries] returns
    the records of the countries in list order, one for each country whose
    page has a capital link, built from that link and the capital's page,
    when every country page and every capital page found can be opened;
    otherwise it fails with the navigation error. *)
Theorem scrapeCountries_outcome (web : Web) (s : State) (d : Document) :
  page s = Some d ->
  output (scrapeCountries web s)
  = match visitAll web (countriesList d) with
    | Some records => Normal records
    | None => Throw NavigationError
    end.
Proof.
  intros Hpage. rewrite scrapeCountries_eq, Hpage.
  rewrite forCountries_outcome by congruence. reflexivity.
Qed.

Lemma scrapeCountries_outcome_witness :
  output (scrapeCountries Fixture.fixtureWeb
                          (showing newScraper Fixture.listPage))
  = match visitAll Fixture.fixtureWeb (countriesList Fixture.listPage) with
    | Some records => Normal records
    | None => Throw NavigationError
    end.
Proof.
  exact (scrapeCountries_outcome Fixture.fixtureWeb
           (showing newScraper Fixture.listPage) Fixture.listPage eq_refl).
Defined.

(** X3: a run (initialise, then scrape) can only fail with the navigation
    error: it never ends in "Page is not initialized." nor in a type
    error. *)
Theorem run_fails_only_on_navigation (web : Web) (s : State) (e : error) :
  output (run web s) = Throw e -> e = NavigationError.
Proof.
  unfold run, Scraper.bind. rewrite init_eq.
  destruct (web startUrl) as [d|]; [|now intros [= <-]].
  rewrite (scrapeCountries_visitAll web
             {| browser := Some tt; page := Some d |} d eq_refl).
  destruct (visitAll web (countriesList d)); [discriminate|now intros [= <-]].
Qed.

Lemma run_fails_only_on_navigation_witness :
  output (run (fun _ => None) newScraper) = Throw NavigationError.
Proof.
  destruct (output (run (fun _ => None) newScraper)) as [out|e] eqn:Hrun;
    [vm_compute in Hrun; discriminate|].
  now rewrite (run_fails_only_on_navigation (fun _ => None) newScraper e Hrun).
Defined.

(** X4: one page that cannot be opened aborts the whole traversal, whatever
    was collected before: the page of a listed country, or the page of the
    capital found on a listed country's page. *)
Theorem unreachable_page_aborts (web : Web) (s : State) (d : Document)
        (c : Country) :
  page s = Some d ->
  In c (countriesList d) ->
  (web (countryUrl c) = None
   \/ exists dc city,
       web (countryUrl c) = Some dc /\ capitalCity dc = Some city
       /\ web (cityUrl city) = None) ->
  scrapeCountries web s = Throw NavigationError.
Proof.
  intros Hpage Hin Hfail.
  assert (Hvisit : visit web c = None).
  { unfold visit. destruct Hfail as [->|(dc & city & -> & -> & ->)];
      reflexivity. }
  assert (Hout := scrapeCountries_visitAll web s d Hpage).
  rewrite (visitAll_unreachable web _ c Hin Hvisit) in Hout.
  destruct (scrapeCountries web s) as [[out s']|e]; simpl in Hout;
    congruence.
Qed.

Lemma unreachable_page_aborts_witness :
  scrapeCountries MoreFixtures.brokenWeb (showing newScraper Fixture.listPage)
  = Throw NavigationError.
Proof.
  apply (unreachable_page_aborts MoreFixtures.brokenWeb
           (showing newScraper Fixture.listPage) Fixture.listPage
           {| countryName := lit "France";
              countryUrl := lit "https://w/France" |} eq_refl).
  - vm_compute. auto.
  - left. reflexivity.
Defined.

(** X5: [init] leaves the scraper with a browser and a page showing the
    start document, whatever its state was; it fails exactly when the
    start URL cannot be opened, and a second [init] changes nothing. *)
Theorem init_settles (web : Web) :
  (forall s u s',
      init web s = Normal (u, s') ->
      browser s' <> None /\ page s' <> None /\ page s' = web startUrl)
  /\ (forall s, init web s = Throw NavigationError <-> web startUrl = None)
  /\ (forall s, Scraper.bind (init web) (fun _ => init web) s = init web s).
Proof.
  split; [|split].
  - intros s u s'. rewrite init_eq.
    destruct (web startUrl) as [d|]; [|discriminate].
    intros [= <- <-]. simpl. repeat split; discriminate.
  - intros s. rewrite init_eq.
    destruct (web startUrl); split; congruence.
  - intros s. unfold Scraper.bind. rewrite (init_eq web s).
    destruct (web startUrl) as [d|] eqn:Hstart; [|reflexivity].
    now rewrite init_eq, Hstart.
Qed.

Lemma init_settles_witness :
  exists s',
    init Fixture.fixtureWeb newScraper = Normal (tt, s')
    /\ page s' = Some Fixture.listPage.
Proof.
  destruct (init Fixture.fixtureWeb newScraper) as [[[] s']|] eqn:Hinit;
    [|vm_compute in Hinit; discriminate].
  exists s'. split; [reflexivity|].
  destruct (proj1 (init_settles Fixture.fixtureWeb) newScraper tt s' Hinit)
    as (_ & _ & ->).
  reflexivity.
Defined.

(** X6: on a document without country links [scrapeCountries] returns the
    empty list and leaves the scraper as it was: no page is opened, so the
    call succeeds even when no page can be. *)
Theorem no_countries_no_navigation (web : Web) (s : State) (d : Document) :
  page s = Some d ->
  countriesList d = [] ->
  scrapeCountries web s = Normal ([], s).
Proof.
  intros Hpage Hnone. rewrite scrapeCountries_eq, Hpage, Hnone. reflexivity.
Qed.

Lemma no_countries_no_navigation_witness :
  scrapeCountries (fun _ => None) (showing newScraper Fixture.emptyPage)
  = Normal ([], showing newScraper Fixture.emptyPage).
Proof.
  apply (no_countries_no_navigation (fun _ => None)
           (showing newScraper Fixture.emptyPage) Fixture.emptyPage eq_refl).
  reflexivity.
Defined.

(* ================================================================== *)
(** ** Further properties of the labelled value *)

Lemma firstMatch_matches (document : Document) (label : jsstring)
      (regex : jsstring -> bool) (td : ElementRef) :
  firstMatch document label regex = Some td -> regex (cellText td) = true.
Proof.
  unfold firstMatch. destruct (labelRows document label); [|discriminate].
  intros H. now apply find_some in H.
Qed.

Lemma valueOfText_none (text : jsstring) :
  valueOfText text = None <-> text = [].
Proof.
  unfold valueOfText. destruct text; simpl; split; congruence.
Qed.

Lemma getValueByLabel_absent_iff (document : Document) (label : jsstring)
      (regex : jsstring -> bool) :
  getValueByLabel document label regex = Normal None <->
  firstMatch document label regex = None
  \/ exists td, firstMatch document label regex = Some td /\ cellText td = [].
Proof.
  rewrite getValueByLabel_firstMatch.
  destruct (firstMatch document label regex) as [td|]; split.
  - intros [= H]. apply valueOfText_none in H. right. eauto.
  - intros [H|(td' & [= <-] & H)]; [discriminate|].
    f_equal. now apply valueOfText_none.
  - auto.
  - reflexivity.
Qed.

(** X7: the extraction returns absent exactly when no cell of the label's
    blocks matches the pattern or the first matching cell has an empty
    trimmed text; the two patterns of the source accept no empty text, so
    [getArea] and [getPopulation] return absent exactly when no cell
    matches, and a string in every other case. *)
Theorem absent_iff_no_match (document : Document) :
  (forall label regex,
      getValueByLabel document label regex = Normal None <->
      firstMatch document label regex = None
      \/ exists td,
          firstMatch document label regex = Some td /\ cellText td = [])
  /\ (getArea document = Normal None <->
      firstMatch document (lit "Area") (test areaRegex) = None)
  /\ (getPopulation document = Normal None <->
      firstMatch document (lit "Population") (test populationRegex) = None).
Proof.
  split; [intros; apply getValueByLabel_absent_iff|].
  unfold getArea, getPopulation.
  split; rewrite getValueByLabel_absent_iff; (split; [|auto]);
    (intros [H|(td & Hfirst & Hempty)]; [exact H|]);
    apply firstMatch_matches in Hfirst; rewrite Hempty in Hfirst;
    vm_compute in Hfirst; discriminate.
Qed.

Lemma find_app {A : Type} (p : A -> bool) (l1 l2 : list A) :
  find p (l1 ++ l2)
  = match find p l1 with
    | Some x => Some x
    | None => find p l2
    end.
Proof.
  induction l1 as [|x l1 IH]; simpl; [reflexivity|].
  now destruct (p x).
Qed.

(** X8: when the label occurs in several headers, the block of the first
    of them in document order is searched first: a matching cell in it
    gives the value, and only when it has none is the value that of the
    first matching cell in the blocks of the later headers. *)
Theorem first_header_first (document : Document) (label : jsstring)
        (regex : jsstring -> bool) (th row : ElementRef)
        (later : list ElementRef) :
  labelHeaders document label = th :: later ->
  parentElement th = Some row ->
  Forall (comesBefore th) later
  /\ exists laterRows,
      map parentElement later = map Some laterRows
      /\ getValueByLabel document label regex
         = Normal
             match find (fun c => regex (cellText c)) (dataCells (block row))
             with
             | Some td => valueOfText (cellText td)
             | None =>
                 match find (fun c => regex (cellText c))
                            (dataCells (flat_map block laterRows)) with
                 | Some td => valueOfText (cellText td)
                 | None => None
                 end
             end.
Proof.
  intros Hheaders Hrow. split.
  - assert (Hsorted : inDocumentOrder (labelHeaders document label)).
    { apply StronglySorted_filter, querySelectorAll_order. }
    rewrite Hheaders in Hsorted. now apply StronglySorted_inv in Hsorted.
  - destruct (labelRows_blocks document label) as (rows & Hparents & Hrows).
    rewrite Hheaders in Hparents. simpl in Hparents. rewrite Hrow in Hparents.
    destruct rows as [|row' laterRows]; [discriminate|].
    injection Hparents as <- Hlater. exists laterRows. split; [assumption|].
    rewrite getValueByLabel_firstMatch. unfold firstMatch. rewrite Hrows.
    cbn [flat_map]. rewrite dataCells_app, find_app.
    now destruct (find _ (dataCells (block row))).
Qed.

Lemma first_header_first_witness :
  getValueByLabel MoreFixtures.densityPage (lit "Population")
                  (test populationRegex)
  = Normal (Some (lit "3677472")).
Proof.
  destruct (labelHeaders MoreFixtures.densityPage (lit "Population"))
    as [|th later] eqn:Hheaders; [vm_compute in Hheaders; discriminate|].
  destruct (parentElement th) as [row|] eqn:Hrow.
  2:{ vm_compute in Hheaders. injection Hheaders as <- _.
      vm_compute in Hrow. discriminate. }
  destruct (first_header_first MoreFixtures.densityPage (lit "Population")
              (test populationRegex) th row later Hheaders Hrow)
    as (_ & laterRows & _ & ->).
  vm_compute in Hheaders. injection Hheaders as <- _.
  vm_compute in Hrow. injection Hrow as <-.
  vm_compute. reflexivity.
Defined.

(* ================================================================== *)
(** ** The flag, the blocks and the country links in the tree *)

(** X9: the flag is the source of the first image, in document order,
    selected by the flag selector: every other selected image comes after
    it; it is absent exactly when the document has no such image. *)
Theorem flag_is_first_image (document : Document) :
  (flagIconPathOf document = None <->
   forall e, In e (allElements document) -> selects flagIconSelector e = false)
  /\ (forall u,
         flagIconPathOf document = Some u ->
         exists image,
           In image (allElements document)
           /\ selects flagIconSelector image = true
           /\ src (here (self image)) = u
           /\ forall other,
               In other (allElements document) ->
               selects flagIconSelector other = true ->
               other = image \/ comesBefore image other).
Proof.
  unfold flagIconPathOf, querySelector.
  assert (Hsorted := querySelectorAll_order document flagIconSelector).
  unfold querySelectorAll in *.
  destruct (filter (selects flagIconSelector) (allElements document))
    as [|image rest] eqn:Hsel; simpl.
  - split; [|discriminate]. split; [|reflexivity].
    intros _. now apply filter_nil_iff.
  - split.
    + split; [discriminate|]. intros Hnone.
      apply filter_nil_iff in Hnone. congruence.
    + intros u [= <-]. exists image.
      assert (Hin : In image (filter (selects flagIconSelector)
                                     (allElements document))).
      { rewrite Hsel. now left. }
      apply filter_In in Hin. destruct Hin as [Hin Hmatch].
      repeat split; [assumption..|].
      intros other Hother Hmatch'.
      assert (Hin' : In other (image :: rest)).
      { rewrite <- Hsel. apply filter_In. now split. }
      destruct Hin' as [<-|Hrest]; [now left|right].
      apply StronglySorted_inv in Hsorted. destruct Hsorted as [_ Hall].
      rewrite Forall_forall in Hall. now apply Hall.
Qed.

Lemma flag_is_first_image_witness :
  flagIconPathOf MoreFixtures.twoFlagsPage = Some (lit "https://img/Flag.svg")
  /\ List.length (querySelectorAll MoreFixtures.twoFlagsPage flagIconSelector)
     = 2.
Proof.
  split; [|vm_compute; reflexivity].
  destruct (flagIconPathOf MoreFixtures.twoFlagsPage) as [u|] eqn:Hflag;
    [|vm_compute in Hflag; discriminate].
  destruct (proj2 (flag_is_first_image MoreFixtures.twoFlagsPage) u Hflag)
    as (image & _ & _ & _ & _).
  vm_compute in Hflag. now injection Hflag as <-.
Defined.

Lemma takeWhile_all {A : Type} (f : A -> bool) (l : list A) (x : A) :
  In x (takeWhile f l) -> f x = true.
Proof.
  induction l as [|z l IH]; simpl; [contradiction|].
  destruct (f z) eqn:Hz; [|contradiction].
  intros [<-|H]; [assumption|now apply IH].
Qed.

(** X10: the rows of a block are children of the header row's parent at
    strictly increasing positions, so none occurs twice, and none after
    the header row carries the class [mergedtoprow]: a block never runs
    into the next section. *)
Theorem block_stays_in_section (row : ElementRef) :
  StronglySorted (fun a b => index (self a) < index (self b)) (block row)
  /\ forall r,
      In r (block row) ->
      ancestors r = ancestors row
      /\ (r = row
          \/ (classContains r "mergedtoprow" = false
              /\ index (self row) < index (self r))).
Proof.
  destruct (block_ascending row) as [Hall Hsorted].
  split; [assumption|].
  intros r Hr. rewrite Forall_forall in Hall.
  destruct (Hall r Hr) as [Hup _]. split; [assumption|].
  rewrite block_spec in Hr, Hsorted. destruct Hr as [<-|Hr]; [now left|].
  right. split.
  - apply takeWhile_all in Hr. unfold startsSection in Hr.
    now apply negb_true_iff in Hr.
  - apply StronglySorted_inv in Hsorted. destruct Hsorted as [_ Hlt].
    rewrite Forall_forall in Hlt. now apply Hlt.
Qed.

Lemma matches_Within_iff (s : selector) (c : compound) (p : Position)
      (up : list Position) :
  matches (Within s c) p up = true <->
  matchesCompound c p = true
  /\ exists pre q post, up = pre ++ q :: post /\ matches s q post = true.
Proof.
  simpl. rewrite andb_true_iff.
  assert (Hany : forall up,
             (fix someAncestor (up : list Position) : bool :=
                match up with
                | [] => false
                | q :: up' => matches s q up' || someAncestor up'
                end) up = true <->
             exists pre q post, up = pre ++ q :: post /\ matches s q post = true).
  { clear up. induction up as [|q up IH].
    - split; [discriminate|]. intros (pre & q & post & H & _).
      now destruct pre.
    - rewrite orb_true_iff, IH. split.
      + intros [H|(pre & q' & post & -> & H)].
        * now exists [], q, up.
        * now exists (q :: pre), q', post.
      + intros (pre & q' & post & Heq & H). destruct pre as [|x pre].
        * injection Heq as <- <-. now left.
        * injection Heq as <- ->. right. now exists pre, q', post. }
  now rewrite Hany.
Qed.

Lemma matches_ChildOf_iff (s : selector) (c : compound) (p : Position)
      (up : list Position) :
  matches (ChildOf s c) p up = true <->
  matchesCompound c p = true
  /\ exists q up', up = q :: up' /\ matches s q up' = true.
Proof.
  simpl. rewrite andb_true_iff. destruct up as [|q up']; split.
  - intros [_ H]. discriminate.
  - intros (_ & q & up' & H & _). discriminate.
  - intros [Hc H]. split; [assumption|]. now exists q, up'.
  - intros (Hc & q' & up'' & [= <- <-] & H). now split.
Qed.

Lemma matchesCompound_iff (c : compound) (p : Position) :
  matchesCompound c p = true <->
  (forall t, c_tag c = Some t -> tagName (here p) = t)
  /\ (forall k, In k (c_classes c) -> hasClass (here p) k = true)
  /\ (forall n, c_nth c = Some n -> childIndex p = n).
Proof.
  unfold matchesCompound. rewrite !andb_true_iff, forallb_forall.
  destruct (c_tag c) as [t|], (c_nth c) as [n|];
    rewrite ?String.eqb_eq, ?Nat.eqb_eq; split.
  - intros [[-> Hk] ->]. repeat split; [congruence|assumption|congruence].
  - intros (Ht & Hk & Hn). repeat split; [symmetry|assumption|]; auto.
  - intros [[-> Hk] _]. repeat split; [congruence|assumption|discriminate].
  - intros (Ht & Hk & _). repeat split; [symmetry|assumption]; auto.
  - intros [[_ Hk] ->]. repeat split; [discriminate|assumption|congruence].
  - intros (_ & Hk & Hn). repeat split; [assumption|]; auto.
  - intros [[_ Hk] _]. repeat split; [discriminate|assumption|discriminate].
  - intros (_ & Hk & _). repeat split; assumption.
Qed.

(** X11: the countries are read, in document order and each once, off
    exactly the anchors of the document that are children of a [td] which
    is the second element child of its parent, inside a [tr], inside a
    [tbody], inside a [table] of class [wikitable]: every such anchor
    gives a country, and an anchor nested deeper in the cell, or in
    another cell, gives none. *)
Theorem country_links_shape (document : Document) :
  exists anchors,
    countriesList document
    = map (fun a => {| countryName := innerText (here (self a));
                       countryUrl := href (here (self a)) |}) anchors
    /\ inDocumentOrder anchors
    /\ forall a,
        In a anchors <->
        In a (allElements document)
        /\ tagName (here (self a)) = "a"%string
        /\ exists cell up1 tr up2 tbody up3 table up4,
            ancestors a = cell :: up1 ++ tr :: up2 ++ tbody :: up3
                                 ++ table :: up4
            /\ tagName (here cell) = "td"%string
            /\ childIndex cell = 2
            /\ tagName (here tr) = "tr"%string
            /\ tagName (here tbody) = "tbody"%string
            /\ tagName (here table) = "table"%string
            /\ hasClass (here table) "wikitable" = true.
Proof.
  exists (querySelectorAll document countryLinks).
  split; [reflexivity|]. split; [apply querySelectorAll_order|].
  intros a. unfold querySelectorAll. rewrite filter_In.
  unfold selects, countryLinks. split.
  - intros [Hin Hsel]. split; [assumption|].
    apply matches_ChildOf_iff in Hsel.
    destruct Hsel as (Ha & cell & up & -> & Hparent).
    apply matchesCompound_iff in Ha. destruct Ha as (Ha & _ & _).
    split; [now apply Ha|].
    apply matches_Within_iff in Hparent.
    destruct Hparent as (Hcell & up1 & tr & post1 & -> & Htr).
    apply matches_Within_iff in Htr.
    destruct Htr as (Htr & up2 & tbody & post2 & -> & Htbody).
    apply matches_Within_iff in Htbody.
    destruct Htbody as (Htbody & up3 & table & up4 & -> & Htable).
    apply matchesCompound_iff in Hcell, Htr, Htbody, Htable.
    destruct Hcell as (Hcell & _ & Hnth), Htr as (Htr & _ & _),
             Htbody as (Htbody & _ & _), Htable as (Htable & Hclass & _).
    exists cell, up1, tr, up2, tbody, up3, table, up4.
    repeat split;
      [now apply Hcell|now apply Hnth|now apply Htr|now apply Htbody
       |now apply Htable|apply Hclass; now left].
  - intros (Hin & Ha & cell & up1 & tr & up2 & tbody & up3 & table & up4
            & -> & Hcell & Hnth & Htr & Htbody & Htable & Hclass).
    split; [assumption|].
    apply matches_ChildOf_iff. split.
    { apply matchesCompound_iff. repeat split.
      - now intros t [= <-].
      - intros k [].
      - discriminate. }
    exists cell, (up1 ++ tr :: up2 ++ tbody :: up3 ++ table :: up4).
    split; [reflexivity|].
    apply matches_Within_iff. split.
    { apply matchesCompound_iff. repeat split.
      - now intros t [= <-].
      - intros k [].
      - now intros n [= <-]. }
    exists up1, tr, (up2 ++ tbody :: up3 ++ table :: up4).
    split; [reflexivity|].
    apply matches_Within_iff. split.
    { apply matchesCompound_iff. repeat split.
      - now intros t [= <-].
      - intros k [].
      - discriminate. }
    exists up2, tbody, (up3 ++ table :: up4).
    split; [reflexivity|].
    apply matches_Within_iff. split.
    { apply matchesCompound_iff. repeat split.
      - now intros t [= <-].
      - intros k [].
      - discriminate. }
    exists up3, table, up4.
    split; [reflexivity|].
    apply matchesCompound_iff. repeat split.
    + now intros t [= <-].
    + intros k [<-|[]]. assumption.
    + discriminate.
Qed.

Lemma country_links_shape_witness :
  countriesList MoreFixtures.flaggedListPage
  = [ {| countryName := lit "Germany";
         countryUrl := lit "https://w/Germany" |} ]
  /\ List.length (querySelectorAll MoreFixtures.flaggedListPage
                                   (Simple (tag "a"))) = 3.
Proof.
  destruct (country_links_shape MoreFixtures.flaggedListPage)
    as (anchors & Heq & _ & _).
  split; [|vm_compute; reflexivity].
  clear Heq. vm_compute. reflexivity.
Defined.

Lemma block_stays_in_section_witness :
  exists th row r rest,
    labelHeaders Fixture.berlinPage (lit "Area") = [th]
    /\ parentElement th = Some row
    /\ block row = row :: r :: rest
    /\ classContains r "mergedtoprow" = false
    /\ index (self row) < index (self r).
Proof.
  destruct (labelHeaders Fixture.berlinPage (lit "Area")) as [|th [|th2 ths]]
    eqn:Hheaders;
    [vm_compute in Hheaders; discriminate| |vm_compute in Hheaders; discriminate].
  destruct (parentElement th) as [row|] eqn:Hrow;
    [|vm_compute in Hheaders; injection Hheaders as <-;
      vm_compute in Hrow; discriminate].
  destruct (block row) as [|row' [|r rest]] eqn:Hblock.
  1, 2: (vm_compute in Hheaders; injection Hheaders as <-;
         vm_compute in Hrow; injection Hrow as <-;
         vm_compute in Hblock; discriminate).
  assert (Hin : In r (block row)) by (rewrite Hblock; right; now left).
  destruct (proj2 (block_stays_in_section row) r Hin) as [_ Hr].
  assert (Hrow' : row' = row) by (unfold block in Hblock; now injection Hblock).
  exists th, row, r, rest.
  split; [reflexivity|]. split; [exact Hrow|].
  split; [now rewrite Hblock, Hrow'|].
  destruct Hr as [Hr|Hr]; [exfalso|exact Hr].
  vm_compute in Hheaders. injection Hheaders as <-.
  vm_compute in Hrow. injection Hrow as <-.
  vm_compute in Hblock. injection Hblock as _ <- _.
  discriminate Hr.
Defined.

(* ================================================================== *)
(** ** What the two patterns accept *)

Lemma denotes_chars (l s : jsstring) : denotes (chars l) s <-> s = l.
Proof.
  revert s. induction l as [|c l IH]; intros s; simpl.
  - split; [apply denotes_Eps_inv|intros ->; constructor].
  - split.
    + intros H. apply denotes_Seq_inv in H.
      destruct H as (s1 & s2 & -> & H1 & H2).
      apply denotes_Class_inv in H1. destruct H1 as (c' & -> & Hc).
      apply N.eqb_eq in Hc. apply IH in H2. now subst.
    + intros ->. apply (@denotes_seq _ _ [c] l).
      * constructor. apply N.eqb_refl.
      * now apply IH.
Qed.

Lemma denotes_star_class (p : N -> bool) (s : jsstring) :
  denotes (Star (Class p)) s <-> forallb p s = true.
Proof.
  split.
  - intros H. remember (Star (Class p)) as r eqn:Hr. revert Hr.
    induction H as [|q c0 Hq|x y s1 s2 H1 IH1 H2 IH2|x y s0 H0 IH0
                    |x y s0 H0 IH0|x|x s1 s2 H1 IH1 H2 IH2];
      intros Hr; try discriminate; [reflexivity|].
    injection Hr as ->. apply denotes_Class_inv in H1.
    destruct H1 as (c & -> & Hc). simpl. rewrite Hc. now apply IH2.
  - induction s as [|c s IH]; simpl; [constructor|].
    intros H. apply andb_true_iff in H. destruct H as [Hc Hs].
    apply (@denotes_star_more _ [c] s); [now constructor|now apply IH].
Qed.

Lemma denotes_plus_class (p : N -> bool) (s : jsstring) :
  denotes (Plus (Class p)) s ->
  exists c t, s = c :: t /\ p c = true /\ forallb p t = true.
Proof.
  intros H. apply denotes_Seq_inv in H.
  destruct H as (s1 & s2 & -> & H1 & H2).
  apply denotes_Class_inv in H1. destruct H1 as (c & -> & Hc).
  apply denotes_star_class in H2. now exists c, s2.
Qed.

(** The texts of the area pattern: a number part, white space, "km2",
    and a rest. *)
Lemma areaRegex_shape (s : jsstring) :
  test areaRegex s = true ->
  exists c n w0 w rest,
    s = (c :: n) ++ (w0 :: w) ++ lit "km2" ++ rest
    /\ forallb numberChar (c :: n) = true
    /\ forallb isWhiteSpace (w0 :: w) = true.
Proof.
  intros H. apply test_denotes in H. unfold areaRegex in H.
  apply denotes_Seq_inv in H. destruct H as (s1 & s2 & -> & H1 & H2).
  apply denotes_plus_class in H1. destruct H1 as (c & n & -> & Hc & Hn).
  apply denotes_Seq_inv in H2. destruct H2 as (s3 & s4 & -> & H3 & H4).
  apply denotes_plus_class in H3. destruct H3 as (w0 & w & -> & Hw0 & Hw).
  apply denotes_Seq_inv in H4. destruct H4 as (s5 & rest & -> & H5 & _).
  apply denotes_chars in H5. subst s5.
  exists c, n, w0, w, rest. simpl. now rewrite Hc, Hn, Hw0, Hw.
Qed.

(** The texts of the population pattern: a number part, alone or followed
    by white space and a parenthesis. *)
Lemma populationRegex_shape (s : jsstring) :
  test populationRegex s = true ->
  exists c n,
    forallb numberChar (c :: n) = true
    /\ (s = c :: n
        \/ exists w0 w rest,
            s = (c :: n) ++ (w0 :: w) ++ lit "(" ++ rest
            /\ forallb isWhiteSpace (w0 :: w) = true).
Proof.
  intros H. apply test_denotes in H. unfold populationRegex in H.
  apply denotes_Seq_inv in H. destruct H as (s1 & s2 & -> & H1 & H2).
  apply denotes_plus_class in H1. destruct H1 as (c & n & -> & Hc & Hn).
  exists c, n. split; [simpl; now rewrite Hc, Hn|].
  apply denotes_Alt_inv in H2. destruct H2 as [H2|H2].
  - right. apply denotes_Seq_inv in H2.
    destruct H2 as (s3 & s4 & -> & H3 & H4).
    apply denotes_plus_class in H3. destruct H3 as (w0 & w & -> & Hw0 & Hw).
    apply denotes_Seq_inv in H4. destruct H4 as (s5 & rest & -> & H5 & _).
    apply denotes_chars in H5. subst s5.
    exists w0, w, rest. simpl. now rewrite Hw0, Hw.
  - left. apply denotes_Eps_inv in H2. subst s2. now rewrite app_nil_r.
Qed.

Lemma whiteSpace_not_numberChar (c : N) :
  isWhiteSpace c = true -> numberChar c = false.
Proof.
  intros Hws. destruct (numberChar c) eqn:Hnum; [|reflexivity]. exfalso.
  unfold isWhiteSpace, numberChar, isDigit in *.
  rewrite !orb_true_iff, !andb_true_iff, !N.eqb_eq, !N.leb_le in *. lia.
Qed.

(** A run of elements satisfying [p] followed by one that does not is
    determined by the whole. *)
Lemma span_unique {A : Type} (p : A -> bool) (a : list A) :
  forall a' x y b b',
    forallb p a = true -> forallb p a' = true ->
    p x = false -> p y = false ->
    a ++ x :: b = a' ++ y :: b' ->
    a = a' /\ x = y /\ b = b'.
Proof.
  induction a as [|z a IH]; intros a' x y b b' Ha Ha' Hx Hy Heq.
  - destruct a' as [|z' a']; simpl in *.
    + now injection Heq as -> ->.
    + injection Heq as -> _. apply andb_true_iff in Ha'. destruct Ha'.
      congruence.
  - destruct a' as [|z' a']; simpl in *.
    + injection Heq as -> _. apply andb_true_iff in Ha. destruct Ha.
      congruence.
    + injection Heq as -> Heq.
      apply andb_true_iff in Ha, Ha'. destruct Ha as [_ Ha], Ha' as [_ Ha'].
      destruct (IH a' x y b b' Ha Ha' Hx Hy Heq) as (-> & -> & ->). auto.
Qed.

Lemma span_not_whole {A : Type} (p : A -> bool) (a a' : list A) (x : A)
      (b : list A) :
  forallb p a' = true -> p x = false -> a ++ x :: b <> a'.
Proof.
  intros Ha' Hx Heq. rewrite forallb_forall in Ha'.
  assert (Hin : In x a') by (rewrite <- Heq; apply in_elt).
  apply Ha' in Hin. congruence.
Qed.

(** X12: every text the area pattern accepts begins with a digit, a comma
    or a dot and contains "km2": a cell that gives the area in another
    unit only is never read as the area. *)
Theorem area_text_mentions_km2 (s : jsstring) :
  test areaRegex s = true ->
  includes s (lit "km2") = true
  /\ exists c t, s = c :: t /\ numberChar c = true.
Proof.
  intros H. apply areaRegex_shape in H.
  destruct H as (c & n & w0 & w & rest & -> & Hn & _). split.
  - apply includes_spec. exists ((c :: n) ++ w0 :: w), rest.
    now rewrite <- !app_assoc.
  - exists c, (n ++ (w0 :: w) ++ lit "km2" ++ rest). split; [reflexivity|].
    simpl in Hn. now apply andb_true_iff in Hn.
Qed.

Lemma area_text_mentions_km2_witness :
  includes (lit "891.3 km2 (344.1 sq mi)") (lit "km2") = true.
Proof.
  exact (proj1 (area_text_mentions_km2 (lit "891.3 km2 (344.1 sq mi)")
                  eq_refl)).
Defined.

(** X13: no text is accepted by both patterns: a figure read as an area
    can never be read as a population, whatever header it stands under. *)
Theorem patterns_disjoint (s : jsstring) :
  test areaRegex s = true -> test populationRegex s = false.
Proof.
  intros Harea. destruct (test populationRegex s) eqn:Hpop; [|reflexivity].
  exfalso.
  apply areaRegex_shape in Harea.
  destruct Harea as (c & n & w0 & w & rest & -> & Hn & Hw).
  apply populationRegex_shape in Hpop.
  destruct Hpop as (c' & n' & Hn' & Hs).
  assert (Hw0 : numberChar w0 = false).
  { apply whiteSpace_not_numberChar. simpl in Hw.
    now apply andb_true_iff in Hw. }
  destruct Hs as [Hs|(w0' & w' & rest' & Hs & Hw')].
  - exact (span_not_whole numberChar (c :: n) (c' :: n') w0 _ Hn' Hw0 Hs).
  - assert (Hw0' : numberChar w0' = false).
    { apply whiteSpace_not_numberChar. simpl in Hw'.
      now apply andb_true_iff in Hw'. }
    destruct (span_unique numberChar (c :: n) (c' :: n') w0 w0' _ _
                Hn Hn' Hw0 Hw0' Hs) as (_ & _ & Htail).
    simpl in Hw, Hw'. apply andb_true_iff in Hw, Hw'.
    destruct Hw as [_ Hw], Hw' as [_ Hw'].
    change (lit "km2") with [107; 109; 50]%N in Htail.
    change (lit "(") with [40]%N in Htail. simpl in Htail.
    destruct (span_unique isWhiteSpace w w' 107%N 40%N _ _
                Hw Hw' eq_refl eq_refl Htail) as (_ & Hk & _).
    discriminate.
Qed.

Lemma patterns_disjoint_witness :
  test populationRegex (lit "891.3 km2 (344.1 sq mi)") = false.
Proof.
  exact (patterns_disjoint (lit "891.3 km2 (344.1 sq mi)") eq_refl).
Defined.

(* ================================================================== *)
(** ** Integer figures come back as their digits *)

Lemma lit_string_of_uint (d : Decimal.uint) :
  lit (NilEmpty.string_of_uint d) = codes d.
Proof.
  induction d; simpl; [reflexivity|..]; unfold lit in *; simpl; now rewrite IHd.
Qed.

Lemma codes_digits (d : Decimal.uint) : forallb isDigit (codes d) = true.
Proof. induction d; simpl; auto. Qed.

Lemma codes_numeral (ds : jsstring) :
  forallb isDigit ds = true -> codes (numeral ds) = ds.
Proof.
  induction ds as [|c t IH]; simpl; [reflexivity|].
  intros H. apply andb_true_iff in H. destruct H as [Hc Ht].
  specialize (IH Ht). unfold isDigit in Hc.
  apply andb_true_iff in Hc. destruct Hc as [Hlo Hhi].
  apply N.leb_le in Hlo, Hhi.
  repeat match goal with
         | |- context [(c =? ?k)%N] =>
             destruct (N.eqb_spec c k); [subst c; simpl; now rewrite IH|]
         end.
  assert (c = 57%N) by lia. subst c. simpl. now rewrite IH.
Qed.

Lemma digitsValue_fold (ds : jsstring) : digitsValue ds = fold_left digitStep ds 0%Z.
Proof. reflexivity. Qed.

Lemma fold_codes (d : Decimal.uint) :
  forall acc,
    fold_left digitStep (codes d) acc
    = (acc * 10 ^ Z.of_N (DecimalPos.Unsigned.usize d)
       + Z.of_N (DecimalPos.Unsigned.of_lu (Decimal.rev d)))%Z.
Proof.
  induction d; intros acc; simpl codes; simpl fold_left;
    [simpl; lia|..];
    rewrite IHd;
    match goal with
    | |- context [Decimal.rev (?c d)] =>
        change (Decimal.rev (c d)) with (Decimal.revapp d (c Decimal.Nil));
        rewrite (DecimalPos.Unsigned.of_lu_revapp d (c Decimal.Nil))
    end;
    simpl DecimalPos.Unsigned.usize; simpl DecimalPos.Unsigned.of_lu; unfold digitStep, digitVal;
    rewrite N2Z.inj_succ, Z.pow_succ_r by lia;
    rewrite N2Z.inj_add, N2Z.inj_mul, N2Z.inj_pow; simpl Z.of_N; lia.
Qed.

Lemma digitsValue_codes (d : Decimal.uint) :
  digitsValue (codes d) = Z.of_N (N.of_uint d).
Proof.
  rewrite digitsValue_fold, fold_codes. unfold N.of_uint.
  rewrite DecimalPos.Unsigned.of_uint_alt. lia.
Qed.

Lemma natDigits_of_N (x : N) :
  natDigits (Z.of_N x) = codes (N.to_uint x).
Proof.
  unfold natDigits. rewrite N2Z.id.
  destruct x as [|p]; [reflexivity|].
  unfold NilZero.string_of_uint.
  destruct (N.to_uint (N.pos p)) eqn:E; try apply lit_string_of_uint.
  exfalso. simpl in E. now apply (DecimalPos.Unsigned.to_uint_nonnil p).
Qed.

Lemma unorm_fixed (d : Decimal.uint) :
  d <> Decimal.Nil -> (forall d', d <> Decimal.D0 d') -> Decimal.unorm d = d.
Proof.
  destruct d; intros Hnil Hzero; try reflexivity.
  - congruence.
  - now destruct (Hzero d).
Qed.

Lemma natDigits_canonical (c : N) (t : jsstring) :
  forallb isDigit (c :: t) = true -> c <> 48%N ->
  natDigits (digitsValue (c :: t)) = c :: t.
Proof.
  intros Hdigits Hc.
  assert (Hcodes := codes_numeral (c :: t) Hdigits).
  rewrite <- Hcodes at 1.
  rewrite digitsValue_codes, natDigits_of_N, DecimalN.Unsigned.to_of, unorm_fixed;
    [assumption| |].
  - intros E. rewrite E in Hcodes. discriminate.
  - intros d' E. rewrite E in Hcodes. simpl in Hcodes. congruence.
Qed.

Lemma natDigits_shape (n : Z) :
  (0 < n)%Z ->
  exists c t,
    natDigits n = c :: t /\ forallb isDigit (c :: t) = true
    /\ c <> 48%N /\ digitsValue (c :: t) = n.
Proof.
  intros Hn. rewrite <- (Z2N.id n) by lia.
  set (x := Z.to_N n). assert (Hx : x <> 0%N) by lia.
  rewrite natDigits_of_N.
  assert (Hnorm : Decimal.unorm (N.to_uint x) = N.to_uint x).
  { rewrite <- DecimalN.Unsigned.to_of, DecimalN.Unsigned.of_to. reflexivity. }
  assert (Hval : digitsValue (codes (N.to_uint x)) = Z.of_N x).
  { now rewrite digitsValue_codes, DecimalN.Unsigned.of_to. }
  assert (Hdig := codes_digits (N.to_uint x)).
  destruct (N.to_uint x) as [|d|d|d|d|d|d|d|d|d|d] eqn:E;
    try (eexists _, _; repeat split; [exact Hdig|discriminate|exact Hval]).
  - exfalso. now apply (DecimalFacts.unorm_nonnil (Decimal.Nil)).
  - exfalso. unfold Decimal.unorm in Hnorm.
    destruct (Decimal.nzhead (Decimal.D0 d)) eqn:Hz; try discriminate.
    + injection Hnorm as <-.
      change (digitsValue (codes (Decimal.D0 Decimal.Nil))) with 0%Z in Hval. lia.
    + now apply (DecimalFacts.nzhead_nonzero (Decimal.D0 d) u).
Qed.

Lemma digitVal_digit (c : N) :
  isDigit c = true -> (0 <= digitVal c <= 9)%Z.
Proof.
  unfold isDigit, digitVal. rewrite andb_true_iff, !N.leb_le. lia.
Qed.

Lemma fold_step_bounds (l : jsstring) :
  forall acc,
    forallb isDigit l = true -> (0 <= acc)%Z ->
    (acc * 10 ^ Z.of_nat (List.length l) <= fold_left digitStep l acc
     < (acc + 1) * 10 ^ Z.of_nat (List.length l))%Z.
Proof.
  induction l as [|c l IH]; intros acc Hl Hacc.
  - simpl. lia.
  - simpl in Hl. apply andb_true_iff in Hl. destruct Hl as [Hc Hl].
    apply digitVal_digit in Hc.
    cbn [fold_left List.length]. rewrite Nat2Z.inj_succ, Z.pow_succ_r by lia.
    specialize (IH (digitStep acc c) Hl). unfold digitStep in *.
    assert (0 < 10 ^ Z.of_nat (List.length l))%Z by (apply Z.pow_pos_nonneg; lia).
    nia.
Qed.

Lemma natDigits_bounds (n : Z) :
  (0 < n)%Z ->
  (10 ^ (Z.of_nat (List.length (natDigits n)) - 1) <= n
   < 10 ^ Z.of_nat (List.length (natDigits n)))%Z.
Proof.
  intros Hn. destruct (natDigits_shape n Hn) as (c & t & -> & Hdig & Hc & Hval).
  simpl in Hdig. apply andb_true_iff in Hdig. destruct Hdig as [Hcd Ht].
  assert (Hb := fold_step_bounds t (digitStep 0 c) Ht).
  rewrite digitsValue_fold in Hval. simpl in Hval. rewrite Hval in Hb.
  apply digitVal_digit in Hcd as Hcv.
  assert (Hc1 : (1 <= digitVal c)%Z).
  { unfold digitVal. unfold isDigit in Hcd.
    apply andb_true_iff in Hcd. rewrite !N.leb_le in Hcd. lia. }
  cbn [List.length]. rewrite Nat2Z.inj_succ.
  replace (Z.succ (Z.of_nat (List.length t)) - 1)%Z
    with (Z.of_nat (List.length t)) by lia.
  rewrite Z.pow_succ_r by lia.
  assert (0 < 10 ^ Z.of_nat (List.length t))%Z by (apply Z.pow_pos_nonneg; lia).
  unfold digitStep in Hb. specialize (Hb ltac:(lia)). nia.
Qed.

Lemma fold_step_zeros (j : nat) (acc : Z) :
  fold_left digitStep (repeat 48%N j) acc = (acc * 10 ^ Z.of_nat j)%Z.
Proof.
  revert acc. induction j as [|j IH]; intros acc.
  - simpl. lia.
  - cbn [repeat fold_left]. rewrite IH, Nat2Z.inj_succ, Z.pow_succ_r by lia.
    unfold digitStep. change (digitVal 48) with 0%Z. ring.
Qed.

Lemma natDigits_pow10 (s j : Z) :
  (0 < s)%Z -> (0 <= j)%Z ->
  natDigits (s * 10 ^ j) = natDigits s ++ zeros j.
Proof.
  intros Hs Hj. destruct (natDigits_shape s Hs) as (c & t & -> & Hdig & Hc & Hval).
  assert (Hv : digitsValue ((c :: t) ++ zeros j) = (s * 10 ^ j)%Z).
  { rewrite digitsValue_fold, fold_left_app, <- digitsValue_fold, Hval.
    unfold zeros. rewrite fold_step_zeros, Z2Nat.id by lia. reflexivity. }
  rewrite <- Hv. apply natDigits_canonical; [|assumption].
  change ((c :: t) ++ zeros j) with (c :: (t ++ zeros j)).
  simpl in Hdig. apply andb_true_iff in Hdig. destruct Hdig as [Hcd Ht].
  simpl. rewrite Hcd, forallb_app, Ht. simpl.
  unfold zeros. induction (Z.to_nat j); simpl; auto.
Qed.

Lemma digits2_pos_bounds (p : positive) :
  (2 ^ (Zpos (digits2_pos p) - 1) <= Zpos p < 2 ^ Zpos (digits2_pos p))%Z.
Proof.
  induction p as [p IH|p IH|]; cbn [digits2_pos].
  - rewrite Pos2Z.inj_succ.
    replace (Z.succ (Zpos (digits2_pos p)) - 1)%Z
      with (Z.succ (Zpos (digits2_pos p) - 1)) by lia.
    rewrite !Z.pow_succ_r by lia. lia.
  - rewrite Pos2Z.inj_succ.
    replace (Z.succ (Zpos (digits2_pos p)) - 1)%Z
      with (Z.succ (Zpos (digits2_pos p) - 1)) by lia.
    rewrite !Z.pow_succ_r by lia. lia.
  - simpl. lia.
Qed.

Lemma digits2_pos_iter (p k : positive) :
  digits2_pos (Pos.iter xO p k) = (digits2_pos p + k)%positive.
Proof.
  induction k as [|k IH] using Pos.peano_ind.
  - simpl. lia.
  - rewrite Pos.iter_succ. cbn [digits2_pos]. rewrite IH. lia.
Qed.

Lemma Zpos_iter_xO (p k : positive) :
  Zpos (Pos.iter xO p k) = (Zpos p * 2 ^ Zpos k)%Z.
Proof.
  induction k as [|k IH] using Pos.peano_ind.
  - simpl. lia.
  - rewrite Pos.iter_succ, Pos2Z.inj_xO, IH, Pos2Z.inj_succ, Z.pow_succ_r by lia.
    lia.
Qed.

Lemma binary_round_aux_canonical (m : positive) (e : Z) :
  Zpos (digits2_pos m) = 53%Z -> (-1074 <= e <= 971)%Z ->
  binary_round_aux prec emax false (Zpos m) e loc_Exact
  = S754_finite false m e.
Proof.
  intros Hd He.
  assert (Hshift : shr_fexp prec emax (Zpos m) e loc_Exact
                   = ({| shr_m := Zpos m; shr_r := false; shr_s := false |}, e)).
  { unfold shr_fexp, fexp, emin, Zdigits2, prec, emax. rewrite Hd.
    replace (Z.max (53 + e - 53) (3 - 1024 - 53) - e)%Z with 0%Z by lia.
    reflexivity. }
  unfold binary_round_aux. rewrite Hshift. cbn [shr_m loc_of_shr_record round_nearest_even].
  rewrite Hshift. cbn [shr_m]. unfold emax, prec.
  destruct (Z.leb_spec e (1024 - 53)); [reflexivity|lia].
Qed.

(** The Number value of an integer below [2^53] is that integer. *)
Lemma ofDecimal_integer (n : Z) :
  (0 < n < 2 ^ 53)%Z ->
  exists m e,
    ofDecimal false n 0 = S754_finite false m e
    /\ (-52 <= e <= 0)%Z /\ Zpos m = (n * 2 ^ (- e))%Z.
Proof.
  intros Hn. unfold ofDecimal. simpl Z.leb. cbv iota.
  rewrite Z.pow_0_r, Z.mul_1_r.
  destruct n as [|p|p]; try lia.
  assert (Hb := digits2_pos_bounds p).
  assert (Hd : (Zpos (digits2_pos p) <= 53)%Z).
  { destruct (Z.le_gt_cases (Zpos (digits2_pos p)) 53) as [H|H]; [assumption|].
    exfalso. assert (2 ^ 53 <= 2 ^ (Zpos (digits2_pos p) - 1))%Z
      by (apply Z.pow_le_mono_r; lia). lia. }
  unfold binary_round, shl_align, fexp, emin, prec, emax.
  replace (Z.max (Zpos (digits2_pos p) + 0 - 53) (3 - 1024 - 53) - 0)%Z
    with (Zpos (digits2_pos p) - 53)%Z by lia.
  replace (Z.max (Zpos (digits2_pos p) + 0 - 53) (3 - 1024 - 53))%Z
    with (Zpos (digits2_pos p) - 53)%Z by lia.
  destruct (Zpos (digits2_pos p) - 53)%Z as [|k|k] eqn:Hk; try lia.
  - exists p, 0%Z. split; [|split; [lia|simpl; lia]].
    apply (binary_round_aux_canonical p 0); [lia|lia].
  - exists (Pos.iter xO p k), (Zneg k). split; [|split; [lia|]].
    + apply (binary_round_aux_canonical (Pos.iter xO p k) (Zneg k)); [|lia].
      rewrite digits2_pos_iter. lia.
    + rewrite Zpos_iter_xO. reflexivity.
Qed.

Lemma ofDecimal_scale (s sc : Z) :
  (0 <= sc)%Z -> ofDecimal false s sc = ofDecimal false (s * 10 ^ sc) 0.
Proof.
  intros Hsc. unfold ofDecimal.
  destruct (Z.leb_spec 0 sc); [|lia]. simpl Z.leb. cbv iota.
  now rewrite Z.pow_0_r, Z.mul_1_r.
Qed.

Lemma shortest_unfold (m : positive) (e : Z) (fuel : nat) (n k : Z) :
  shortest m e fuel n k
  = let '(a, b) := scaled m e (n - k) in
    let lo := (a / b)%Z in
    let hi := (lo + 1)%Z in
    let okLo := roundTrips m e lo (n - k) in
    let okHi := roundTrips m e hi (n - k) in
    let dLo := (a - lo * b)%Z in
    let dHi := (hi * b - a)%Z in
    let pick :=
      if okLo && okHi then
        if (dLo <? dHi)%Z then lo
        else if (dHi <? dLo)%Z then hi
        else if Z.even lo then lo else hi
      else if okLo then lo else hi in
    if okLo || okHi then
      if (pick =? 10 ^ k)%Z then (10 ^ (k - 1), k, n + 1)%Z
      else (pick, k, n)
    else
      match fuel with
      | O => (lo, k, n)
      | S fuel' => shortest m e fuel' n (k + 1)%Z
      end.
Proof. destruct fuel; reflexivity. Qed.

Section IntegerToString.
Variables (n : Z) (m : positive) (e : Z).
Hypothesis Hn : (0 < n < 10 ^ 15)%Z.
Hypothesis He : (-52 <= e <= 0)%Z.
Hypothesis Hm : Zpos m = (n * 2 ^ (- e))%Z.

Let L := Z.of_nat (List.length (natDigits n)).
Let D := (2 ^ (- e))%Z.

Lemma D_pos : (0 < D)%Z.
Proof. apply Z.pow_pos_nonneg; lia. Qed.

Lemma num_den : num m e = (n * D)%Z /\ den e = D.
Proof.
  unfold num, den, D. rewrite Hm.
  replace (Z.max e 0) with 0%Z by lia.
  replace (Z.max (- e) 0) with (- e)%Z by lia.
  rewrite Z.pow_0_r. lia.
Qed.

Lemma L_bounds : (10 ^ (L - 1) <= n < 10 ^ L)%Z /\ (1 <= L <= 15)%Z.
Proof.
  assert (Hb := natDigits_bounds n ltac:(lia)). fold L in Hb.
  split; [exact Hb|].
  assert (HL : (0 <= L)%Z) by (unfold L; lia).
  split.
  - destruct (Z.eq_dec L 0) as [E|E]; [|lia].
    rewrite E in Hb. simpl in Hb. lia.
  - destruct (Z.le_gt_cases L 15) as [H|H]; [assumption|].
    assert (10 ^ 15 <= 10 ^ (L - 1))%Z by (apply Z.pow_le_mono_r; lia). lia.
Qed.

Lemma decimalPoint_integer : decimalPoint m e = L.
Proof.
  unfold decimalPoint. destruct num_den as [-> ->]. assert (HD := D_pos).
  destruct (Z.leb_spec D (n * D)); [|nia].
  rewrite Z.div_mul by lia. reflexivity.
Qed.

Lemma roundTrips_integer (c sc : Z) :
  ofDecimal false n 0 = S754_finite false m e ->
  (0 <= sc)%Z -> (0 < c * 10 ^ sc < 2 ^ 53)%Z ->
  roundTrips m e c sc = (c * 10 ^ sc =? n)%Z.
Proof.
  intros Hval Hsc Hc. unfold roundTrips. rewrite ofDecimal_scale by assumption.
  destruct (Z.eqb_spec (c * 10 ^ sc) n) as [E|E].
  - rewrite E, Hval, Pos.eqb_refl, Z.eqb_refl. reflexivity.
  - destruct (ofDecimal_integer (c * 10 ^ sc) Hc) as (m' & e' & -> & He' & Hm').
    destruct (Pos.eqb_spec m m') as [Em|Em]; [|reflexivity].
    destruct (Z.eqb_spec e e') as [Ee|Ee]; [|reflexivity].
    exfalso. subst m' e'. rewrite Hm in Hm'. fold D in Hm'.
    assert (HD := D_pos). nia.
Qed.

Hypothesis Hval : ofDecimal false n 0 = S754_finite false m e.

Lemma shortest_integer (j : nat) :
  forall k fuel,
    (L - k)%Z = Z.of_nat j -> (1 <= k)%Z -> j <= fuel ->
    exists k',
      (k <= k' <= L)%Z
      /\ n = (n / 10 ^ (L - k') * 10 ^ (L - k'))%Z
      /\ shortest m e fuel L k = ((n / 10 ^ (L - k'))%Z, k', L).
Proof.
  destruct L_bounds as [[Hlow Hhigh] HL].
  induction j as [|j IH]; intros k fuel Hj Hk Hfuel;
    rewrite shortest_unfold; unfold scaled;
    destruct num_den as [-> ->];
    (destruct (Z.leb_spec 0 (L - k)); [|lia]);
    cbv zeta;
    assert (HD := D_pos);
    assert (Hp : (0 < 10 ^ (L - k))%Z) by (apply Z.pow_pos_nonneg; lia);
    replace (n * D / (D * 10 ^ (L - k)))%Z with (n / 10 ^ (L - k))%Z
      by (rewrite (Z.mul_comm D), Z.div_mul_cancel_r by lia; reflexivity);
    set (lo := (n / 10 ^ (L - k))%Z);
    assert (Hle : (10 ^ (L - k) <= n)%Z)
      by (apply Z.le_trans with (10 ^ (L - 1))%Z;
          [apply Z.pow_le_mono_r; lia|assumption]);
    assert (Hlo : (lo * 10 ^ (L - k) <= n < (lo + 1) * 10 ^ (L - k))%Z)
      by (unfold lo; split;
          [rewrite Z.mul_comm; apply Z.mul_div_le; lia
          |rewrite Z.mul_comm; apply Z.mul_succ_div_gt; lia]);
    assert (Hlo1 : (1 <= lo)%Z) by (unfold lo; apply Z.div_le_lower_bound; lia);
    assert (H53 : (2 * 10 ^ 15 < 2 ^ 53)%Z) by (vm_compute; reflexivity);
    rewrite (roundTrips_integer lo (L - k) Hval) by nia;
    rewrite (roundTrips_integer (lo + 1) (L - k) Hval) by nia;
    (destruct (Z.eqb_spec ((lo + 1) * 10 ^ (L - k)) n) as [E|_]; [lia|]);
    rewrite andb_false_r, orb_false_r.
  - assert (Hp0 : (10 ^ (L - k) = 1)%Z)
      by (replace (L - k)%Z with 0%Z by lia; reflexivity).
    assert (Hlon : lo = n) by (unfold lo; rewrite Hp0; apply Z.div_1_r).
    destruct (Z.eqb_spec (lo * 10 ^ (L - k)) n) as [E|E];
      [|rewrite Hp0 in E; lia].
    destruct (Z.eqb_spec lo (10 ^ k)) as [E'|_].
    { replace k with L in E' by lia. lia. }
    exists k. split; [lia|]. split; [unfold lo in E; lia|reflexivity].
  - destruct (Z.eqb_spec (lo * 10 ^ (L - k)) n) as [E|E].
    + assert (Hlt : (lo < 10 ^ k)%Z).
      { unfold lo. apply Z.div_lt_upper_bound; [lia|].
        rewrite <- Z.pow_add_r by lia. replace (L - k + k)%Z with L by lia.
        assumption. }
      destruct (Z.eqb_spec lo (10 ^ k)) as [E'|_]; [lia|].
      exists k. split; [lia|]. split; [unfold lo in E; lia|reflexivity].
    + destruct fuel as [|fuel]; [lia|].
      destruct (IH (k + 1)%Z fuel) as (k' & Hk' & Hdiv & Heq); [lia..|].
      exists k'. split; [lia|]. split; assumption.
Qed.

Lemma positiveToString_integer : positiveToString m e = natDigits n.
Proof.
  destruct L_bounds as [[Hlow Hhigh] HL].
  unfold positiveToString. rewrite decimalPoint_integer.
  destruct (shortest_integer (Z.to_nat (L - 1)) 1 16) as (k & Hk & Hdiv & ->);
    [lia..|].
  destruct (Z.leb_spec k L); [|lia]. destruct (Z.leb_spec L 21); [|lia].
  simpl andb. cbv iota.
  rewrite <- natDigits_pow10; [now rewrite <- Hdiv| |lia].
  assert (Hp : (0 < 10 ^ (L - k))%Z) by (apply Z.pow_pos_nonneg; lia).
  apply Z.div_str_pos. split; [lia|].
  apply Z.le_trans with (10 ^ (L - 1))%Z; [apply Z.pow_le_mono_r; lia|assumption].
Qed.

End IntegerToString.

Lemma toString_integer (n : Z) :
  (0 < n < 10 ^ 15)%Z -> toString (ofDecimal false n 0) = natDigits n.
Proof.
  intros Hn.
  destruct (ofDecimal_integer n) as (m & e & Hval & He & Hm).
  { assert (10 ^ 15 < 2 ^ 53)%Z by (vm_compute; reflexivity). lia. }
  rewrite Hval. cbn [toString]. simpl app.
  now apply positiveToString_integer.
Qed.

Lemma endsNumber_cons (c : N) (r : jsstring) :
  endsNumber (c :: r) = true ->
  isDigit c = false /\ (c =? 46)%N = false
  /\ (c =? 101)%N = false /\ (c =? 69)%N = false.
Proof.
  unfold endsNumber. rewrite negb_true_iff, !orb_false_iff. tauto.
Qed.

Lemma span_digits (l rest : jsstring) :
  forallb isDigit l = true -> endsNumber rest = true ->
  takeWhile isDigit (l ++ rest) = l /\ dropWhile isDigit (l ++ rest) = rest.
Proof.
  intros Hl Hrest. induction l as [|c l IH]; cbn [app].
  - destruct rest as [|c r]; [auto|]. cbn [takeWhile dropWhile].
    apply endsNumber_cons in Hrest. destruct Hrest as (-> & _). auto.
  - cbn [forallb] in Hl. apply andb_true_iff in Hl. destruct Hl as [Hc Hl].
    cbn [takeWhile dropWhile]. rewrite Hc.
    destruct (IH Hl) as [-> ->]. auto.
Qed.

Lemma parseFloat_integer (n : Z) (rest : jsstring) :
  (0 < n)%Z -> endsNumber rest = true ->
  parseFloat (natDigits n ++ rest) = ofDecimal false n 0.
Proof.
  intros Hn Hrest.
  destruct (natDigits_shape n Hn) as (c & t & -> & Hdig & Hc & Hval).
  assert (Hcd : isDigit c = true) by (simpl in Hdig; now apply andb_true_iff in Hdig).
  assert (Hrange : (48 <= c <= 57)%N).
  { unfold isDigit in Hcd. apply andb_true_iff in Hcd.
    rewrite !N.leb_le in Hcd. lia. }
  assert (Hws : isWhiteSpace c = false).
  { destruct (isWhiteSpace c) eqn:E; [|reflexivity]. exfalso.
    unfold isWhiteSpace in E.
    rewrite !orb_true_iff, !andb_true_iff, !N.eqb_eq, !N.leb_le in E. lia. }
  unfold parseFloat, trimStart.
  change ((c :: t) ++ rest) with (c :: (t ++ rest)).
  cbn [dropWhile]. rewrite Hws.
  destruct (N.eqb_spec c 43); [lia|]. destruct (N.eqb_spec c 45); [lia|].
  assert (Hinf : startsWith (c :: t ++ rest) (lit "Infinity") = false).
  { change (lit "Infinity") with (73%N :: lit "nfinity"). cbn [startsWith].
    destruct (N.eqb_spec c 73); [lia|reflexivity]. }
  rewrite Hinf.
  change (c :: t ++ rest) with ((c :: t) ++ rest).
  destruct (span_digits (c :: t) rest Hdig Hrest) as [-> ->].
  assert (Hfrac : (let '(fp, r2) :=
                     match rest with
                     | c0 :: r =>
                         if (c0 =? 46)%N
                         then (takeWhile isDigit r, dropWhile isDigit r)
                         else ([], rest)
                     | [] => ([], rest)
                     end in
                   match (c :: t) ++ fp with
                   | [] => S754_nan
                   | ds => ofDecimal false (digitsValue ds)
                             (exponentPart r2 - Z.of_nat (List.length fp))
                   end) = ofDecimal false n 0).
  { assert (Hexp : exponentPart rest = 0%Z).
    { destruct rest as [|c0 r]; [reflexivity|].
      apply endsNumber_cons in Hrest. destruct Hrest as (_ & _ & He & HE).
      cbn [exponentPart]. now rewrite He, HE. }
    destruct rest as [|c0 r].
    - rewrite app_nil_r. cbn [List.length]. rewrite Hexp, Hval. reflexivity.
    - apply endsNumber_cons in Hrest. destruct Hrest as (_ & -> & _).
      rewrite app_nil_r. cbn [List.length]. rewrite Hexp, Hval. reflexivity. }
  exact Hfrac.
Qed.

Lemma valueOfText_integer (text rest : jsstring) (n : Z) :
  removeCommas text = natDigits n ++ rest ->
  endsNumber rest = true -> (0 < n < 10 ^ 15)%Z ->
  valueOfText text = Some (natDigits n).
Proof.
  intros Htext Hrest Hn. unfold valueOfText.
  destruct text as [|c t].
  - simpl in Htext. destruct (natDigits_shape n ltac:(lia)) as (c & t & E & _).
    rewrite E in Htext. discriminate.
  - cbn [truthy]. rewrite Htext, parseFloat_integer by (lia || assumption).
    now rewrite toString_integer.
Qed.

(** X14: when the first matching cell, its commas removed, reads as the
    decimal digits of an integer [n] with [0 < n < 10^15] followed by
    nothing or by something a number cannot go on with (no digit, dot or
    exponent sign), the value returned is exactly the digits of [n]:
    parsing to a binary64 number and printing it back loses nothing. *)
Theorem integer_figure_round_trip (document : Document) (label : jsstring)
        (regex : jsstring -> bool) (td : ElementRef) (n : Z)
        (rest : jsstring) :
  firstMatch document label regex = Some td ->
  removeCommas (cellText td) = natDigits n ++ rest ->
  endsNumber rest = true ->
  (0 < n < 10 ^ 15)%Z ->
  getValueByLabel document label regex = Normal (Some (natDigits n)).
Proof.
  intros Hfirst Htext Hrest Hn.
  rewrite getValueByLabel_firstMatch, Hfirst.
  now rewrite (valueOfText_integer (cellText td) rest n Htext Hrest Hn).
Qed.

Lemma integer_figure_round_trip_witness :
  getArea Fixture.berlinPage = Normal (Some (natDigits 357021)).
Proof.
  destruct (firstMatch Fixture.berlinPage (lit "Area") (test areaRegex))
    as [td|] eqn:Hfirst; [|vm_compute in Hfirst; discriminate].
  apply (integer_figure_round_trip Fixture.berlinPage (lit "Area")
           (test areaRegex) td 357021 (lit " km2 (137847 sq mi)") Hfirst).
  - vm_compute in Hfirst. injection Hfirst as <-. vm_compute. reflexivity.
  - reflexivity.
  - split; [reflexivity|vm_compute; reflexivity].
Defined.

(* ================================================================== *)
(** ** Only the number part of an accepted text counts *)

Lemma span_nondigit (s rest : jsstring) (c : N) :
  isDigit c = false ->
  takeWhile isDigit (s ++ c :: rest) = takeWhile isDigit s
  /\ dropWhile isDigit (s ++ c :: rest) = dropWhile isDigit s ++ c :: rest.
Proof.
  intros Hc. induction s as [|x s IH]; cbn [app takeWhile dropWhile].
  - now rewrite Hc.
  - destruct (isDigit x); [|auto]. destruct IH as [-> ->]. auto.
Qed.

Lemma dropWhile_digits_dot (s : jsstring) :
  forallb digitOrDot s = true ->
  dropWhile isDigit s = []
  \/ exists q, dropWhile isDigit s = 46%N :: q /\ forallb digitOrDot q = true.
Proof.
  induction s as [|x s IH]; cbn [forallb dropWhile]; [auto|].
  intros H. apply andb_true_iff in H. destruct H as [Hx Hs].
  destruct (isDigit x) eqn:Hd; [auto|].
  right. exists s. unfold digitOrDot in Hx. rewrite Hd in Hx.
  apply N.eqb_eq in Hx. now subst x.
Qed.

Lemma whiteSpace_not_digit (c : N) :
  isWhiteSpace c = true ->
  isDigit c = false /\ (c =? 46)%N = false
  /\ (c =? 101)%N = false /\ (c =? 69)%N = false.
Proof.
  intros Hws. unfold isWhiteSpace, isDigit in *.
  rewrite !orb_true_iff, !andb_true_iff, !N.eqb_eq, !N.leb_le in Hws.
  rewrite andb_false_iff, !N.leb_gt, !N.eqb_neq. lia.
Qed.

Lemma exponentPart_after_number (q rest : jsstring) (c : N) :
  forallb digitOrDot q = true -> isWhiteSpace c = true ->
  exponentPart (dropWhile isDigit q ++ c :: rest) = 0%Z
  /\ exponentPart (dropWhile isDigit q) = 0%Z.
Proof.
  intros Hq Hc. apply whiteSpace_not_digit in Hc.
  destruct Hc as (_ & _ & He & HE).
  destruct (dropWhile_digits_dot q Hq) as [->|(q' & -> & _)].
  - cbn [app exponentPart]. now rewrite He, HE.
  - split; reflexivity.
Qed.

(** After a number part of digits and dots, what follows a white space
    is not read. *)
Lemma parseFloat_number_prefix (s rest : jsstring) (c : N) :
  s <> [] -> forallb digitOrDot s = true -> isWhiteSpace c = true ->
  parseFloat (s ++ c :: rest) = parseFloat s.
Proof.
  intros Hne Hs Hc. destruct s as [|x s]; [congruence|].
  assert (Hx : digitOrDot x = true)
    by (cbn [forallb] in Hs; now apply andb_true_iff in Hs).
  assert (Hrange : (48 <= x <= 57)%N \/ x = 46%N).
  { unfold digitOrDot, isDigit in Hx.
    rewrite orb_true_iff, andb_true_iff, !N.leb_le, N.eqb_eq in Hx. lia. }
  assert (Hws : isWhiteSpace x = false).
  { destruct (isWhiteSpace x) eqn:E; [|reflexivity]. exfalso.
    unfold isWhiteSpace in E.
    rewrite !orb_true_iff, !andb_true_iff, !N.eqb_eq, !N.leb_le in E. lia. }
  destruct (whiteSpace_not_digit c Hc) as (Hcd & Hcdot & _ & _).
  unfold parseFloat, trimStart.
  change ((x :: s) ++ c :: rest) with (x :: (s ++ c :: rest)).
  cbn [dropWhile]. rewrite Hws.
  destruct (N.eqb_spec x 43); [lia|]. destruct (N.eqb_spec x 45); [lia|].
  change (lit "Infinity") with (73%N :: lit "nfinity"). cbn [startsWith].
  destruct (N.eqb_spec x 73); [lia|]. cbn [andb].
  change (x :: s ++ c :: rest) with ((x :: s) ++ c :: rest).
  destruct (span_nondigit (x :: s) rest c Hcd) as [-> ->].
  destruct (dropWhile_digits_dot (x :: s) Hs) as [->|(q & -> & Hq)].
  - cbn [app]. rewrite Hcdot.
    destruct (whiteSpace_not_digit c Hc) as (_ & _ & He & HE).
    cbn [exponentPart]. now rewrite He, HE.
  - cbn [app]. rewrite N.eqb_refl.
    destruct (span_nondigit q rest c Hcd) as [-> ->].
    destruct (exponentPart_after_number q rest c Hq Hc) as [-> ->].
    reflexivity.
Qed.

Lemma removeCommas_numberChars (np : jsstring) :
  forallb numberChar np = true ->
  forallb digitOrDot (removeCommas np) = true.
Proof.
  unfold removeCommas. induction np as [|x np IH]; cbn [forallb filter];
    [reflexivity|].
  intros H. apply andb_true_iff in H. destruct H as [Hx Hnp].
  destruct (N.eqb_spec x 44) as [E|E]; cbn [negb]; [now apply IH|].
  cbn [forallb]. rewrite (IH Hnp), andb_true_r.
  unfold numberChar in Hx. unfold digitOrDot.
  apply N.eqb_neq in E. rewrite E, orb_false_r in Hx.
  destruct (isDigit x); [reflexivity|exact Hx].
Qed.

Lemma removeCommas_whiteSpace (w : jsstring) :
  forallb isWhiteSpace w = true -> removeCommas w = w.
Proof.
  unfold removeCommas. induction w as [|x w IH]; cbn [forallb filter];
    [reflexivity|].
  intros H. apply andb_true_iff in H. destruct H as [Hx Hw].
  destruct (N.eqb_spec x 44) as [E|E]; cbn [negb].
  - subst x. discriminate.
  - now rewrite (IH Hw).
Qed.

Lemma removeCommas_app (a b : jsstring) :
  removeCommas (a ++ b) = removeCommas a ++ removeCommas b.
Proof. apply filter_app. Qed.

Lemma parseFloat_no_number (w tail : jsstring) (x : N) :
  forallb isWhiteSpace w = true -> x = 107%N \/ x = 40%N ->
  parseFloat (w ++ x :: tail) = S754_nan.
Proof.
  intros Hw Hx. unfold parseFloat, trimStart.
  assert (Hdrop : dropWhile isWhiteSpace (w ++ x :: tail) = x :: tail).
  { induction w as [|y w IH]; cbn [app dropWhile].
    - destruct Hx as [->| ->]; reflexivity.
    - cbn [forallb] in Hw. apply andb_true_iff in Hw.
      destruct Hw as [-> Hw]. now apply IH. }
  rewrite Hdrop. destruct Hx as [->| ->]; reflexivity.
Qed.

Lemma valueOfText_number_part (np w tail : jsstring) (w0 x : N) :
  np <> [] -> forallb numberChar np = true ->
  forallb isWhiteSpace (w0 :: w) = true -> x = 107%N \/ x = 40%N ->
  valueOfText (np ++ (w0 :: w) ++ x :: tail) = valueOfText np.
Proof.
  intros Hne Hnp Hw Hx. unfold valueOfText.
  assert (Ht1 : truthy (np ++ (w0 :: w) ++ x :: tail) = true)
    by (destruct np; [congruence|reflexivity]).
  assert (Ht2 : truthy np = true) by (destruct np; [congruence|reflexivity]).
  rewrite Ht1, Ht2.
  rewrite !removeCommas_app, (removeCommas_whiteSpace (w0 :: w) Hw).
  assert (Hx44 : removeCommas (x :: tail) = x :: removeCommas tail)
    by (destruct Hx as [->| ->]; reflexivity).
  rewrite Hx44.
  assert (Hs := removeCommas_numberChars np Hnp).
  destruct (removeCommas np) as [|y s] eqn:Hrem.
  - cbn [app].
    change (w0 :: w ++ x :: removeCommas tail)
      with ((w0 :: w) ++ x :: removeCommas tail).
    now rewrite (parseFloat_no_number (w0 :: w) _ x Hw Hx).
  - cbn [forallb] in Hw. apply andb_true_iff in Hw. destruct Hw as [Hw0 _].
    change ((w0 :: w) ++ x :: removeCommas tail)
      with (w0 :: (w ++ x :: removeCommas tail)).
    rewrite (parseFloat_number_prefix (y :: s) _ w0); [reflexivity| | |];
      [discriminate|assumption|assumption].
Qed.

Lemma takeWhile_span {A : Type} (p : A -> bool) (a : list A) (x : A)
      (b : list A) :
  forallb p a = true -> p x = false -> takeWhile p (a ++ x :: b) = a.
Proof.
  intros Ha Hx. induction a as [|y a IH]; cbn [app takeWhile].
  - now rewrite Hx.
  - cbn [forallb] in Ha. apply andb_true_iff in Ha. destruct Ha as [-> Ha].
    now rewrite IH.
Qed.

Lemma takeWhile_whole {A : Type} (p : A -> bool) (a : list A) :
  forallb p a = true -> takeWhile p a = a.
Proof.
  induction a as [|y a IH]; cbn [forallb takeWhile]; [reflexivity|].
  intros Ha. apply andb_true_iff in Ha. destruct Ha as [-> Ha].
  now rewrite IH.
Qed.

(** X16: for every text that the area pattern or the population pattern
    accepts, the value is that of its leading run of digits, commas and
    dots: the white space, the unit and the parenthesised annotation that
    follow never influence what is returned. *)
Theorem value_is_of_number_part (text : jsstring) :
  test areaRegex text = true \/ test populationRegex text = true ->
  valueOfText text = valueOfText (takeWhile numberChar text).
Proof.
  intros [H|H].
  - apply areaRegex_shape in H.
    destruct H as (c & n & w0 & w & rest & -> & Hn & Hw).
    assert (Hw0 : numberChar w0 = false).
    { apply whiteSpace_not_numberChar. cbn [forallb] in Hw.
      now apply andb_true_iff in Hw. }
    change ((w0 :: w) ++ lit "km2" ++ rest)
      with (w0 :: (w ++ lit "km2" ++ rest)).
    rewrite (takeWhile_span numberChar (c :: n) w0 _ Hn Hw0).
    change (w0 :: w ++ lit "km2" ++ rest)
      with ((w0 :: w) ++ 107%N :: (lit "m2" ++ rest)).
    apply valueOfText_number_part; auto. discriminate.
  - apply populationRegex_shape in H.
    destruct H as (c & n & Hn & [->|(w0 & w & rest & -> & Hw)]).
    + now rewrite (takeWhile_whole numberChar (c :: n) Hn).
    + assert (Hw0 : numberChar w0 = false).
      { apply whiteSpace_not_numberChar. cbn [forallb] in Hw.
        now apply andb_true_iff in Hw. }
      change ((w0 :: w) ++ lit "(" ++ rest) with (w0 :: (w ++ lit "(" ++ rest)).
      rewrite (takeWhile_span numberChar (c :: n) w0 _ Hn Hw0).
      change (w0 :: w ++ lit "(" ++ rest) with ((w0 :: w) ++ 40%N :: rest).
      apply valueOfText_number_part; auto. discriminate.
Qed.

Lemma value_is_of_number_part_witness :
  valueOfText (lit "891.3 km2 (344.1 sq mi)") = valueOfText (lit "891.3")
  /\ valueOfText (lit "891.3") = Some (lit "891.3").
Proof.
  split; [|vm_compute; reflexivity].
  exact (value_is_of_number_part (lit "891.3 km2 (344.1 sq mi)")
           (or_introl eq_refl)).
Defined.

(* ================================================================== *)
(** ** The details of one capital *)

(** X15: with a page open, [scrapeCityDetails] for a city fails, with the
    navigation error, exactly when the city's page cannot be opened;
    otherwise it returns the one record made of the city's name and URL,
    the country's name and the three fields read off the city's page, and
    leaves the page showing that document. *)
Theorem scrapeCityDetails_outcome (web : Web) (city : City) (c : Country)
        (s : State) :
  page s <> None ->
  (scrapeCityDetails web (Some city) c s = Throw NavigationError <->
   web (cityUrl city) = None)
  /\ (forall d,
         web (cityUrl city) = Some d ->
         scrapeCityDetails web (Some city) c s
         = Normal
             (Some [ {| name := cityName city;
                        url := cityUrl city;
                        country := Some (countryName c);
                        area := d_area (detailsOf d);
                        population := d_population (detailsOf d);
                        flagIconPath := flagIconPathOf d |} ],
              showing s d)).
Proof.
  intros Hpage. rewrite scrapeCityDetails_city.
  destruct (page s) as [shown|]; [|congruence].
  destruct (web (cityUrl city)) as [d|].
  - rewrite capitalCityDetails_detailsOf. split.
    + split; discriminate.
    + now intros d' [= <-].
  - split; [tauto|discriminate].
Qed.

Lemma scrapeCityDetails_outcome_witness :
  output (scrapeCityDetails Fixture.fixtureWeb
            (Some {| cityName := lit "Paris"; cityUrl := lit "https://w/Paris" |})
            {| countryName := lit "France"; countryUrl := lit "https://w/France" |}
            (showing newScraper Fixture.listPage))
  = Normal (Some [ {| name := lit "Paris";
                      url := lit "https://w/Paris";
                      country := Some (lit "France");
                      area := None;
                      population := Some (lit "1234567");
                      flagIconPath := Some (lit "https://img/Paris.svg") |} ]).
Proof.
  rewrite (proj2 (scrapeCityDetails_outcome Fixture.fixtureWeb
                    {| cityName := lit "Paris";
                       cityUrl := lit "https://w/Paris" |}
                    {| countryName := lit "France";
                       countryUrl := lit "https://w/France" |}
                    (showing newScraper Fixture.listPage)
                    ltac:(discriminate))
             Fixture.parisPage eq_refl).
  vm_compute. reflexivity.
Defined.
